(** * apple-mcp: request dispatch and aggregation over Reminders and Calendar

    A shallow embedding of the server module (the MCP tool handler and its
    argument guards), [utils/reminders.ts] and [utils/calendar.ts].

    The automation bridge ([runAppleScript], [@jxa/run]) is modelled by an
    explicit [World]: the permission bits read by the probes, the reminder
    lists and calendars of the two applications, and a chronological log of
    every bridge call.  Asynchronous functions become computations in a
    state-and-exception monad [M]; a rejected promise is [Throw msg] where
    [msg] is the text the handlers read back with
    [error instanceof Error ? error.message : String(error)]. *)

From Stdlib Require Import QArith Qabs.
From stdpp Require Import gmap strings list pretty.

Close Scope Q_scope.
Open Scope string_scope.
Open Scope list_scope.

(** ** JavaScript strings *)

Module JsString.

(** The line feed and the double quote of the template literals. *)
Definition nl : string := String (Ascii.ascii_of_nat 10) EmptyString.
Definition dq : string := String (Ascii.ascii_of_nat 34) EmptyString.

(** [startsWith p s]: [s] begins with [p]. *)
Fixpoint startsWith (p s : string) : bool :=
  match p, s with
  | EmptyString, _ => true
  | String _ _, EmptyString => false
  | String a p', String b s' => Ascii.eqb a b && startsWith p' s'
  end.

(** [includes s p] is [s.includes(p)]: [p] occurs in [s] at some offset. *)
Fixpoint includes (s p : string) : bool :=
  startsWith p s ||
  match s with
  | EmptyString => false
  | String _ s' => includes s' p
  end.

(** [xs.join(sep)]. *)
Definition join (sep : string) (xs : list string) : string := String.concat sep xs.

(** A string is truthy unless it is empty. *)
Definition nonempty (s : string) : bool :=
  match s with EmptyString => false | String _ _ => true end.

End JsString.
Export JsString.

(** ** JavaScript values and dates *)

(** The values a JSON argument object can hold.  [JObject] stands for any
    nested object or array: the guards only look at its [typeof]. *)
Inductive JsValue :=
| JNull
| JBool (b : bool)
| JNum (q : Q)
| JStr (s : string)
| JObject.

(** A property read: [None] is [undefined] (the key is absent). *)
Definition truthy (v : option JsValue) : bool :=
  match v with
  | None | Some JNull => false
  | Some (JBool b) => b
  | Some (JNum q) => negb (Qeq_bool q 0)
  | Some (JStr s) => nonempty s
  | Some JObject => true
  end.

Definition typeof (v : option JsValue) : string :=
  match v with
  | None => "undefined"
  | Some JNull | Some JObject => "object"
  | Some (JBool _) => "boolean"
  | Some (JNum _) => "number"
  | Some (JStr _) => "string"
  end.

(** Reads of a property whose static type the guard has established. *)
Definition arg_str (v : option JsValue) : string :=
  match v with Some (JStr s) => s | _ => EmptyString end.

Definition arg_num (v : option JsValue) : Q :=
  match v with Some (JNum q) => q | _ => 0%Q end.

(** [ops.includes(operation)] on an array of string literals. *)
Definition op_in (ops : list string) (v : option JsValue) : bool :=
  match v with
  | Some (JStr s) => existsb (String.eqb s) ops
  | _ => false
  end.

(** [operation === "lit"]. *)
Definition op_is (lit : string) (v : option JsValue) : bool :=
  match v with
  | Some (JStr s) => String.eqb s lit
  | _ => false
  end.

(** A [Date]: a time value in milliseconds, or the invalid date. *)
Inductive JsDate :=
| ValidDate (ms : Z)
| InvalidDate.

(** TimeClip on an exact number: a magnitude above 8.64e15 ms gives the
    invalid date, the rest is truncated toward zero.  A [JNum] holds the
    exact value of the double it stands for; arithmetic on doubles is left
    to the runtime ([date_after_minutes]). *)
Definition Qtrunc (q : Q) : Z := Z.quot (Qnum q) (Z.pos (Qden q)).

Definition timeClip (q : Q) : JsDate :=
  if Qle_bool (Qabs q) (inject_Z 8640000000000000)
  then ValidDate (Qtrunc q) else InvalidDate.

(** ** The applications behind the bridge *)

(** A reminder object of the Reminders application. *)
Record RawReminder := {
  r_id : string;
  r_name : string;
  r_body : option string;
  r_dueDate : option Z;
  r_completed : bool
}.

(** An event object of the Calendar application. *)
Record RawEvent := {
  e_id : string;
  e_summary : string;
  e_description : option string;
  e_location : option string;
  e_startDate : Z;
  e_endDate : Z;
  e_calendarName : string
}.

(** Reading the elements of one backing store either yields them or raises
    inside the script. *)
Inductive Source (A : Type) :=
| Readable (items : list A)
| Unreadable (msg : string).
Arguments Readable {A} items.
Arguments Unreadable {A} msg.

Record Calendar := {
  cal_name : string;
  cal_events : Source RawEvent
}.

(** Every call that crosses the bridge, in the order it is issued. *)
Inductive BridgeCall :=
| ProbeReminders
| ProbeCalendar
| RunGetAllReminders
| RunFindReminders (searchText : string)
| RunCreateReminder (title notes : string) (dueDate : option Z)
| RunCompleteReminder (id : string)
| RunGetAllEvents
| RunFindEvents (searchText : string) (startDate endDate : option Z)
| RunCreateEvent (title : string) (startDate endDate : Z) (description location : string).

Record World := {
  reminders_access : bool;
  reminder_lists : list (Source RawReminder);
  default_list : nat;
  calendar_access : bool;
  calendars : list Calendar;
  default_calendar : nat;
  bridge_log : list BridgeCall
}.

Definition log_call (c : BridgeCall) (w : World) : World :=
  {| reminders_access := reminders_access w;
     reminder_lists := reminder_lists w;
     default_list := default_list w;
     calendar_access := calendar_access w;
     calendars := calendars w;
     default_calendar := default_calendar w;
     bridge_log := bridge_log w ++ [c] |}.

Definition set_reminder_lists (ls : list (Source RawReminder)) (w : World) : World :=
  {| reminders_access := reminders_access w;
     reminder_lists := ls;
     default_list := default_list w;
     calendar_access := calendar_access w;
     calendars := calendars w;
     default_calendar := default_calendar w;
     bridge_log := bridge_log w |}.

Definition set_calendars (cs : list Calendar) (w : World) : World :=
  {| reminders_access := reminders_access w;
     reminder_lists := reminder_lists w;
     default_list := default_list w;
     calendar_access := calendar_access w;
     calendars := cs;
     default_calendar := default_calendar w;
     bridge_log := bridge_log w |}.

(** The bridge calls issued between [w] and a later world [w']. *)
Definition calls_since (w w' : World) : list BridgeCall :=
  drop (length (bridge_log w)) (bridge_log w').

(** ** Promises as a state-and-exception monad *)

Inductive Res (A : Type) :=
| Ok (a : A)
| Throw (msg : string).
Arguments Ok {A} a.
Arguments Throw {A} msg.

Definition M (A : Type) : Type := World -> Res A * World.

Definition ret {A} (a : A) : M A := fun w => (Ok a, w).

Definition throw {A} (msg : string) : M A := fun w => (Throw msg, w).

Definition bind {A B} (m : M A) (k : A -> M B) : M B :=
  fun w =>
    match m w with
    | (Ok a, w') => k a w'
    | (Throw e, w') => (Throw e, w')
    end.

(** [try { body } catch (error) { handler(message) }]: effects of the body
    that happened before the throw stay. *)
Definition try_catch {A} (body : M A) (handler : string -> M A) : M A :=
  fun w =>
    match body w with
    | (Ok a, w') => (Ok a, w')
    | (Throw e, w') => handler e w'
    end.

Notation "x <~ c ;; k" := (bind c (fun x => k))
  (at level 100, c at next level, right associativity).

(** [await Promise.all(xs.map(f))]: the calls are taken left to right and
    the first rejection is the one that propagates. *)
Fixpoint mapM {A B} (f : A -> M B) (xs : list A) : M (list B) :=
  match xs with
  | [] => ret []
  | x :: xs' => y <~ f x ;; ys <~ mapM f xs' ;; ret (y :: ys)
  end.

(** ** What the model takes as given *)

(** Records returned by [utils/message.ts] and [utils/notes.ts], as the
    handler reads them. *)
Record Message := {
  msg_content : string;
  msg_date : string;
  msg_sender : string;
  msg_is_from_me : bool
}.

Record Note := {
  note_name : string;
  note_content : string
}.

(** The JavaScript runtime, the query engine of the applications and the
    three utility modules (contacts, notes, message) that the handler
    imports and this development does not embed: any behaviour is allowed
    for them, including throwing. *)
Record Platform := {
  (** [new Date(s)] for a string *)
  date_parse : string -> JsDate;
  (** [d.toString()] of a valid date *)
  date_toString : Z -> string;
  (** [d.toLocaleString()] *)
  date_toLocaleString : JsDate -> string;
  (** [new Date(t + duration * 60000)] for a time value [t], as the
      runtime's double arithmetic and TimeClip compute it *)
  date_after_minutes : Z -> Q -> JsDate;
  (** [s.toLowerCase()], the runtime's Unicode lower-casing *)
  toLowerCase : string -> string;
  (** message of the RangeError that [toISOString] raises on an invalid date *)
  range_error : string;
  (** message of a failing [osascript] probe *)
  probe_error : string;
  (** message of the script when the default list or calendar is missing *)
  no_default : string;
  (** the applications' own [_contains] test on a text property *)
  whose_contains : option string -> string -> bool;
  (** the id the application gives a new reminder or event *)
  fresh_reminder_id : list (Source RawReminder) -> string;
  fresh_event_id : list Calendar -> string;
  (** [utils/contacts.ts] *)
  contacts_findNumber : string -> M (list string);
  contacts_getAllNumbers : M (list (string * list string));
  contacts_findContactByPhone : string -> M (option string);
  (** [utils/notes.ts] *)
  notes_findNote : string -> M (list Note);
  notes_getAllNotes : M (list (string * string));
  (** [utils/message.ts] *)
  message_sendMessage : string -> string -> M unit;
  message_readMessages : string -> option JsValue -> M (list Message);
  message_scheduleMessage : string -> string -> JsDate -> M string;
  message_getUnreadMessages : option JsValue -> M (list Message)
}.

(** ** utils/reminders.ts *)

Record Reminder := {
  id : string;
  title : string;
  notes : string;
  dueDate : option string;
  isCompleted : bool
}.

(** [x || ''] on a text property that may be missing. *)
Definition or_empty (s : option string) : string :=
  match s with Some t => t | None => EmptyString end.

(** The loop [for (const list of allLists) acc = [...acc, ...body(list)]]
    of the Reminders scripts: nothing catches a list that raises. *)
Fixpoint for_lists {A B} (body : list A -> list B) (acc : list B)
    (srcs : list (Source A)) : Res (list B) :=
  match srcs with
  | [] => Ok acc
  | Readable items :: rest => for_lists body (acc ++ body items) rest
  | Unreadable msg :: _ => Throw msg
  end.

(** [targetReminder.completed = true]. *)
Definition set_completed (r : RawReminder) : RawReminder :=
  {| r_id := r_id r; r_name := r_name r; r_body := r_body r;
     r_dueDate := r_dueDate r; r_completed := true |}.

(** The inner loop of [completeReminder]: the first reminder of the list
    with [reminder.id() === id], marked completed. *)
Fixpoint mark_first (i : string) (items : list RawReminder) : option (list RawReminder) :=
  match items with
  | [] => None
  | r :: rest =>
      if String.eqb (r_id r) i
      then Some (set_completed r :: rest)
      else option_map (cons r) (mark_first i rest)
  end.

(** The search loop of [completeReminder] with its two [break]s, followed
    by [targetReminder.completed = true]: [Ok None] when no list holds the
    id, the updated lists otherwise. *)
Fixpoint complete_in_lists (i : string) (srcs : list (Source RawReminder))
    : Res (option (list (Source RawReminder))) :=
  match srcs with
  | [] => Ok None
  | Unreadable msg :: _ => Throw msg
  | Readable items :: rest =>
      match mark_first i items with
      | Some items' => Ok (Some (Readable items' :: rest))
      | None =>
          match complete_in_lists i rest with
          | Ok (Some rest') => Ok (Some (Readable items :: rest'))
          | Ok None => Ok None
          | Throw msg => Throw msg
          end
      end
  end.

(** [defaultList.reminders.push(x)] and [defaultCalendar.events.push(x)]. *)
Definition push_to {A} (x : A) (src : Source A) : Res (Source A) :=
  match src with
  | Readable items => Ok (Readable (items ++ [x]))
  | Unreadable msg => Throw msg
  end.

Section Utils.
Context (P : Platform).

(** [d?.toISOString()], read back by [new Date(iso)] inside the script:
    the time value survives, an invalid date raises. *)
Definition toISOString (d : JsDate) : M Z :=
  match d with
  | ValidDate ms => ret ms
  | InvalidDate => throw (range_error P)
  end.

Definition toISOString_opt (d : option JsDate) : M (option Z) :=
  match d with
  | None => ret None
  | Some d' => ms <~ toISOString d' ;; ret (Some ms)
  end.

Definition to_reminder (r : RawReminder) : Reminder :=
  {| id := r_id r;
     title := r_name r;
     notes := or_empty (r_body r);
     dueDate := option_map (date_toString P) (r_dueDate r);
     isCompleted := r_completed r |}.

(** [runAppleScript] counting every reminder. *)
Definition probe_reminders : M unit :=
  fun w =>
    (if reminders_access w then Ok tt else Throw (probe_error P),
     log_call ProbeReminders w).

Definition checkRemindersAccess : M bool :=
  try_catch
    (_ <~ probe_reminders ;; ret true)
    (fun _ => throw "Cannot access Reminders app. Please grant access in System Preferences > Security & Privacy > Privacy > Reminders.").

(** The script of [getAllReminders]. *)
Definition run_getAllReminders : M (list Reminder) :=
  fun w =>
    (match for_lists (fun items => items) [] (reminder_lists w) with
     | Ok allReminders => Ok (map to_reminder allReminders)
     | Throw msg => Throw msg
     end,
     log_call RunGetAllReminders w).

Definition getAllReminders : M (list Reminder) :=
  try_catch
    (ok <~ checkRemindersAccess ;;
     if negb ok then ret []
     else reminders <~ run_getAllReminders ;; ret reminders)
    (fun e => throw ("Error accessing reminders: " +:+ e)).

(** The [whose] clause of [findReminders]: name or body contains the text,
    as judged by the application. *)
Definition whose_name_or_body (searchText : string) (r : RawReminder) : bool :=
  whose_contains P (Some (r_name r)) searchText
  || whose_contains P (r_body r) searchText.

Definition run_findReminders (searchText : string) : M (list Reminder) :=
  fun w =>
    (match for_lists (List.filter (whose_name_or_body searchText)) []
             (reminder_lists w) with
     | Ok matchingReminders => Ok (map to_reminder matchingReminders)
     | Throw msg => Throw msg
     end,
     log_call (RunFindReminders searchText) w).

(** The filter of the broader search. *)
Definition reminder_matches (searchText : string) (r : Reminder) : bool :=
  includes (toLowerCase P (title r)) (toLowerCase P searchText)
  || includes (toLowerCase P (notes r)) (toLowerCase P searchText).

Definition findReminders (searchText : string) : M (list Reminder) :=
  try_catch
    (ok <~ checkRemindersAccess ;;
     if negb ok then ret []
     else
       reminders <~ run_findReminders searchText ;;
       if (length reminders =? 0)%nat
       then allReminders <~ getAllReminders ;;
            ret (List.filter (reminder_matches searchText) allReminders)
       else ret reminders)
    (fun e => throw ("Error finding reminders: " +:+ e)).

Definition run_createReminder (title0 notes0 : string) (due : option Z) : M Reminder :=
  fun w =>
    let w1 := log_call (RunCreateReminder title0 notes0 due) w in
    let reminder :=
      {| r_id := fresh_reminder_id P (reminder_lists w);
         r_name := title0;
         r_body := Some notes0;
         r_dueDate := due;
         r_completed := false |} in
    match reminder_lists w !! default_list w with
    | None => (Throw (no_default P), w1)
    | Some src =>
        match push_to reminder src with
        | Throw msg => (Throw msg, w1)
        | Ok src' =>
            (Ok (to_reminder reminder),
             set_reminder_lists (<[default_list w := src']> (reminder_lists w)) w1)
        end
    end.

Definition createReminder (title0 notes0 : string) (due : option JsDate)
    : M (option Reminder) :=
  try_catch
    (ok <~ checkRemindersAccess ;;
     if negb ok then ret None
     else
       iso <~ toISOString_opt due ;;
       newReminder <~ run_createReminder title0 notes0 iso ;;
       ret (Some newReminder))
    (fun e => throw ("Error creating reminder: " +:+ e)).

Definition run_completeReminder (i : string) : M bool :=
  fun w =>
    let w1 := log_call (RunCompleteReminder i) w in
    match complete_in_lists i (reminder_lists w) with
    | Throw msg => (Throw msg, w1)
    | Ok None => (Ok false, w1)
    | Ok (Some lists') => (Ok true, set_reminder_lists lists' w1)
    end.

Definition completeReminder (i : string) : M bool :=
  try_catch
    (ok <~ checkRemindersAccess ;;
     if negb ok then ret false
     else success <~ run_completeReminder i ;; ret success)
    (fun e => throw ("Error completing reminder: " +:+ e)).

End Utils.

(** ** utils/calendar.ts *)

Record CalendarEvent := {
  ev_id : string;
  ev_title : string;
  ev_description : string;
  ev_startDate : string;
  ev_endDate : string;
  ev_location : string;
  ev_calendarName : string
}.

(** The loop over [allCalendars] with its inner [try]/[catch]: a calendar
    whose events cannot be read is skipped. *)
Fixpoint for_calendars {B} (body : list RawEvent -> list B) (acc : list B)
    (cals : list Calendar) : list B :=
  match cals with
  | [] => acc
  | c :: rest =>
      match cal_events c with
      | Readable evs => for_calendars body (acc ++ body evs) rest
      | Unreadable _ => for_calendars body acc rest
      end
  end.

(** The [whose] clause of [findEvents]:
    [startDate >= startDateObj] and [endDate <= endDateObj]. *)
Definition whose_dates (s e : Z) (ev : RawEvent) : bool :=
  (s <=? e_startDate ev)%Z && (e_endDate ev <=? e)%Z.

(** [eventsInCalendar]: the date clause only when both bounds are set. *)
Definition events_in_calendar (s e : option Z) (evs : list RawEvent) : list RawEvent :=
  match s, e with
  | Some s', Some e' => List.filter (whose_dates s' e') evs
  | _, _ => evs
  end.

(** The manual text filter of the script. *)
Definition text_filter (searchText : string) (ev : RawEvent) : bool :=
  includes (e_summary ev) searchText
  || includes (or_empty (e_description ev)) searchText
  || includes (or_empty (e_location ev)) searchText.

Section CalendarUtils.
Context (P : Platform).

(** The filter of the broader search. *)
Definition event_matches (searchText : string) (ev : CalendarEvent) : bool :=
  includes (toLowerCase P (ev_title ev)) (toLowerCase P searchText)
  || includes (toLowerCase P (ev_description ev)) (toLowerCase P searchText)
  || includes (toLowerCase P (ev_location ev)) (toLowerCase P searchText).

Definition to_event (ev : RawEvent) : CalendarEvent :=
  {| ev_id := e_id ev;
     ev_title := e_summary ev;
     ev_description := or_empty (e_description ev);
     ev_startDate := date_toString P (e_startDate ev);
     ev_endDate := date_toString P (e_endDate ev);
     ev_location := or_empty (e_location ev);
     ev_calendarName := e_calendarName ev |}.

(** [runAppleScript] counting every calendar. *)
Definition probe_calendar : M unit :=
  fun w =>
    (if calendar_access w then Ok tt else Throw (probe_error P),
     log_call ProbeCalendar w).

Definition checkCalendarAccess : M bool :=
  try_catch
    (_ <~ probe_calendar ;; ret true)
    (fun _ => throw "Cannot access Calendar app. Please grant access in System Preferences > Security & Privacy > Privacy > Calendars.").

Definition run_getAllEvents : M (list CalendarEvent) :=
  fun w =>
    (Ok (map to_event (for_calendars (fun evs => evs) [] (calendars w))),
     log_call RunGetAllEvents w).

Definition getAllEvents : M (list CalendarEvent) :=
  try_catch
    (ok <~ checkCalendarAccess ;;
     if negb ok then ret []
     else events <~ run_getAllEvents ;; ret events)
    (fun e => throw ("Error accessing calendar events: " +:+ e)).

(** The script of [findEvents]: per calendar, the date clause and then the
    text filter on what it returned. *)
Definition find_in_calendars (searchText : string) (s e : option Z)
    (cals : list Calendar) : list RawEvent :=
  for_calendars
    (fun evs => List.filter (text_filter searchText) (events_in_calendar s e evs))
    [] cals.

Definition run_findEvents (searchText : string) (s e : option Z)
    : M (list CalendarEvent) :=
  fun w =>
    (Ok (map to_event (find_in_calendars searchText s e (calendars w))),
     log_call (RunFindEvents searchText s e) w).

(** A [Date] argument is truthy whenever it is passed, valid or not. *)
Definition date_given {A} (d : option A) : bool :=
  match d with Some _ => true | None => false end.

Definition findEvents (searchText : string) (startDate endDate : option JsDate)
    : M (list CalendarEvent) :=
  try_catch
    (ok <~ checkCalendarAccess ;;
     if negb ok then ret []
     else
       s <~ toISOString_opt P startDate ;;
       e <~ toISOString_opt P endDate ;;
       events <~ run_findEvents searchText s e ;;
       if (length events =? 0)%nat && negb (date_given startDate)
          && negb (date_given endDate)
       then allEvents <~ getAllEvents ;;
            ret (List.filter (event_matches searchText) allEvents)
       else ret events)
    (fun e => throw ("Error finding calendar events: " +:+ e)).

Definition run_createEvent (title0 : string) (s e : Z)
    (description location : string) : M CalendarEvent :=
  fun w =>
    let w1 := log_call (RunCreateEvent title0 s e description location) w in
    match calendars w !! default_calendar w with
    | None => (Throw (no_default P), w1)
    | Some cal =>
        let event :=
          {| e_id := fresh_event_id P (calendars w);
             e_summary := title0;
             e_description := Some description;
             e_location := Some location;
             e_startDate := s;
             e_endDate := e;
             e_calendarName := cal_name cal |} in
        match push_to event (cal_events cal) with
        | Throw msg => (Throw msg, w1)
        | Ok evs' =>
            (Ok (to_event event),
             set_calendars
               (<[default_calendar w :=
                    {| cal_name := cal_name cal; cal_events := evs' |}]>
                  (calendars w)) w1)
        end
    end.

(** [new Date(startDate.getTime() + duration * 60000)]; the time value of
    an invalid date is NaN, and so is the sum. *)
Definition end_of (startDate : JsDate) (duration : Q) : JsDate :=
  match startDate with
  | ValidDate ms => date_after_minutes P ms duration
  | InvalidDate => InvalidDate
  end.

Definition createEvent (title0 : string) (startDate : JsDate) (duration : Q)
    (description location : string) : M (option CalendarEvent) :=
  try_catch
    (ok <~ checkCalendarAccess ;;
     if negb ok then ret None
     else
       let endDate := end_of startDate duration in
       s <~ toISOString P startDate ;;
       e <~ toISOString P endDate ;;
       newEvent <~ run_createEvent title0 s e description location ;;
       ret (Some newEvent))
    (fun e => throw ("Error creating calendar event: " +:+ e)).

End CalendarUtils.

(** ** The server module: argument guards *)

(** The [arguments] object of a request.  The guards' tests
    [typeof args === "object" && args !== null] hold for every such map. *)
Abbreviation Args := (gmap string JsValue).

Definition has_key (args : Args) (k : string) : bool :=
  match args !! k with Some _ => true | None => false end.

Definition is_type (t : string) (v : option JsValue) : bool :=
  String.eqb (typeof v) t.

(** [if (x && typeof x !== t) return false] lets the guard go on when this
    is [true]. *)
Definition type_ok (t : string) (v : option JsValue) : bool :=
  negb (truthy v && negb (is_type t v)).

Definition isContactsArgs (args : Args) : bool :=
  negb (has_key args "name") || is_type "string" (args !! "name").

Definition isNotesArgs (args : Args) : bool :=
  negb (has_key args "searchText") || is_type "string" (args !! "searchText").

Definition isMessagesArgs (args : Args) : bool :=
  let operation := args !! "operation" in
  let phoneNumber := args !! "phoneNumber" in
  let message := args !! "message" in
  let limit := args !! "limit" in
  let scheduledTime := args !! "scheduledTime" in
  if negb (truthy operation)
     || negb (op_in ["send"; "read"; "schedule"; "unread"] operation)
  then false
  else
    let required :=
      if op_is "send" operation || op_is "schedule" operation then
        if negb (truthy phoneNumber) || negb (truthy message) then false
        else if op_is "schedule" operation && negb (truthy scheduledTime) then false
        else true
      else if op_is "read" operation then
        if negb (truthy phoneNumber) then false else true
      else true in
    if negb required then false
    else if negb (type_ok "string" phoneNumber) then false
    else if negb (type_ok "string" message) then false
    else if negb (type_ok "number" limit) then false
    else if negb (type_ok "string" scheduledTime) then false
    else true.

Definition isRemindersArgs (args : Args) : bool :=
  let operation := args !! "operation" in
  let searchText := args !! "searchText" in
  let title0 := args !! "title" in
  let notes0 := args !! "notes" in
  let dueDate0 := args !! "dueDate" in
  let id0 := args !! "id" in
  if negb (truthy operation)
     || negb (op_in ["list"; "find"; "create"; "complete"] operation)
  then false
  else
    let required :=
      if op_is "find" operation then
        if negb (truthy searchText) then false else true
      else if op_is "create" operation then
        if negb (truthy title0) then false else true
      else if op_is "complete" operation then
        if negb (truthy id0) then false else true
      else true in
    if negb required then false
    else if negb (type_ok "string" searchText) then false
    else if negb (type_ok "string" title0) then false
    else if negb (type_ok "string" notes0) then false
    else if negb (type_ok "string" dueDate0) then false
    else if negb (type_ok "string" id0) then false
    else true.

Definition isCalendarArgs (args : Args) : bool :=
  let operation := args !! "operation" in
  let searchText := args !! "searchText" in
  let startDate := args !! "startDate" in
  let endDate := args !! "endDate" in
  let title0 := args !! "title" in
  let description := args !! "description" in
  let location := args !! "location" in
  let duration := args !! "duration" in
  if negb (truthy operation)
     || negb (op_in ["list"; "find"; "create"] operation)
  then false
  else
    let required :=
      if op_is "find" operation then
        if negb (truthy searchText) then false else true
      else if op_is "create" operation then
        if negb (truthy title0) || negb (truthy startDate) || negb (truthy duration)
        then false else true
      else true in
    if negb required then false
    else if negb (type_ok "string" searchText) then false
    else if negb (type_ok "string" startDate) then false
    else if negb (type_ok "string" endDate) then false
    else if negb (type_ok "string" title0) then false
    else if negb (type_ok "string" description) then false
    else if negb (type_ok "string" location) then false
    else if negb (type_ok "number" duration) then false
    else true.

(** ** The server module: tool handler *)

(** [{content: [{type: "text", text}], isError}]. *)
Record CallToolResult := {
  text : string;
  isError : bool
}.

(** [request.params]. *)
Record Request := {
  name : string;
  arguments : option Args
}.

(** A length used as a condition, and [xs.length > 0]. *)
Definition some {A} (xs : list A) : bool := (0 <? length xs)%nat.

Section Handler.
Context (P : Platform).

Definition locale (s : string) : string := date_toLocaleString P (date_parse P s).

Definition render_reminder (reminder : Reminder) : string :=
  let status := if isCompleted reminder then "[✓]" else "[ ]" in
  let dueInfo :=
    match dueDate reminder with
    | Some d => if nonempty d then "(Due: " +:+ d +:+ ")" else EmptyString
    | None => EmptyString
    end in
  status +:+ " [ID: " +:+ id reminder +:+ "] " +:+ title reminder +:+ " "
    +:+ dueInfo +:+ nl
    +:+ (if nonempty (notes reminder)
         then "Notes: " +:+ notes reminder +:+ nl else EmptyString).

Definition render_event (event : CalendarEvent) : string :=
  let dateRange := locale (ev_startDate event) +:+ " - " +:+ locale (ev_endDate event) in
  let location :=
    if nonempty (ev_location event)
    then "Location: " +:+ ev_location event +:+ nl else EmptyString in
  let desc :=
    if nonempty (ev_description event)
    then "Description: " +:+ ev_description event +:+ nl else EmptyString in
  "[" +:+ ev_calendarName event +:+ "] " +:+ ev_title event +:+ nl
    +:+ dateRange +:+ nl +:+ location +:+ desc.

Definition case_contacts (args : Args) : M CallToolResult :=
  if negb (isContactsArgs args) then throw "Invalid arguments for contacts tool"
  else
    try_catch
      (if truthy (args !! "name") then
         let name0 := arg_str (args !! "name") in
         numbers <~ contacts_findNumber P name0 ;;
         ret {| text :=
                  if some numbers
                  then name0 +:+ ": " +:+ join ", " numbers
                  else "No contact found for " +:+ dq +:+ name0 +:+ dq
                       +:+ ". Try a different name or use no name parameter to list all contacts.";
                isError := false |}
       else
         allNumbers <~ contacts_getAllNumbers P ;;
         let contactCount := length allNumbers in
         if (contactCount =? 0)%nat then
           ret {| text := "No contacts found in the address book. Please make sure you have granted access to Contacts.";
                  isError := false |}
         else
           let formattedContacts :=
             map (fun e : string * list string => e.1 +:+ ": " +:+ join ", " e.2)
                 (List.filter (fun e : string * list string => some e.2) allNumbers) in
           ret {| text :=
                    if some formattedContacts
                    then "Found " +:+ pretty contactCount +:+ " contacts:" +:+ nl +:+ nl
                         +:+ join nl formattedContacts
                    else "Found contacts but none have phone numbers. Try searching by name to see more details.";
                  isError := false |})
      (fun e =>
         ret {| text := "Error accessing contacts: " +:+ e; isError := true |}).

Definition case_notes (args : Args) : M CallToolResult :=
  if negb (isNotesArgs args) then throw "Invalid arguments for notes tool"
  else if truthy (args !! "searchText") then
    let searchText := arg_str (args !! "searchText") in
    foundNotes <~ notes_findNote P searchText ;;
    ret {| text :=
             if some foundNotes
             then join (nl +:+ nl)
                    (map (fun note => note_name note +:+ ":" +:+ nl +:+ note_content note)
                         foundNotes)
             else "No notes found for " +:+ dq +:+ searchText +:+ dq;
           isError := false |}
  else
    allNotes <~ notes_getAllNotes P ;;
    ret {| text :=
             join (nl +:+ nl)
               (map (fun e : string * string => e.1 +:+ ":" +:+ nl +:+ e.2) allNotes);
           isError := false |}.

(** One lookup of the [unread] case; [Promise.all] over the lookups is
    taken left to right. *)
Definition with_display_name (msg : Message) : M (Message * string) :=
  if negb (msg_is_from_me msg) then
    contactName <~ contacts_findContactByPhone P (msg_sender msg) ;;
    ret (msg,
         match contactName with
         | Some n => if nonempty n then n else msg_sender msg
         | None => msg_sender msg
         end)
  else ret (msg, "Me").

Definition case_messages (args : Args) : M CallToolResult :=
  if negb (isMessagesArgs args) then throw "Invalid arguments for messages tool"
  else
    let operation := args !! "operation" in
    let phoneNumber := args !! "phoneNumber" in
    let message := args !! "message" in
    if op_is "send" operation then
      if negb (truthy phoneNumber) || negb (truthy message)
      then throw "Phone number and message are required for send operation"
      else
        _ <~ message_sendMessage P (arg_str phoneNumber) (arg_str message) ;;
        ret {| text := "Message sent to " +:+ arg_str phoneNumber; isError := false |}
    else if op_is "read" operation then
      if negb (truthy phoneNumber)
      then throw "Phone number is required for read operation"
      else
        messages <~ message_readMessages P (arg_str phoneNumber) (args !! "limit") ;;
        ret {| text :=
                 if some messages
                 then join nl
                        (map (fun msg =>
                                "[" +:+ locale (msg_date msg) +:+ "] "
                                +:+ (if msg_is_from_me msg then "Me" else msg_sender msg)
                                +:+ ": " +:+ msg_content msg)
                             messages)
                 else "No messages found";
               isError := false |}
    else if op_is "schedule" operation then
      if negb (truthy phoneNumber) || negb (truthy message)
         || negb (truthy (args !! "scheduledTime"))
      then throw "Phone number, message, and scheduled time are required for schedule operation"
      else
        scheduledTime <~ message_scheduleMessage P (arg_str phoneNumber) (arg_str message)
                           (date_parse P (arg_str (args !! "scheduledTime"))) ;;
        ret {| text := "Message scheduled to be sent to " +:+ arg_str phoneNumber
                       +:+ " at " +:+ scheduledTime;
               isError := false |}
    else if op_is "unread" operation then
      messages <~ message_getUnreadMessages P (args !! "limit") ;;
      messagesWithNames <~ mapM with_display_name messages ;;
      ret {| text :=
               if some messagesWithNames
               then "Found " +:+ pretty (length messagesWithNames)
                    +:+ " unread message(s):" +:+ nl
                    +:+ join (nl +:+ nl)
                          (map (fun m : Message * string =>
                                  "[" +:+ locale (msg_date m.1) +:+ "] From " +:+ m.2
                                  +:+ ":" +:+ nl +:+ msg_content m.1)
                               messagesWithNames)
               else "No unread messages found";
             isError := false |}
    else throw ("Unknown operation: " +:+ arg_str operation).

Definition case_reminders (args : Args) : M CallToolResult :=
  if negb (isRemindersArgs args) then throw "Invalid arguments for reminders tool"
  else
    let operation := args !! "operation" in
    if op_is "list" operation then
      allReminders <~ getAllReminders P ;;
      ret {| text :=
               if some allReminders
               then "Found " +:+ pretty (length allReminders) +:+ " reminders:" +:+ nl +:+ nl
                    +:+ join (nl +:+ nl) (map render_reminder allReminders)
               else "No reminders found";
             isError := false |}
    else if op_is "find" operation then
      if negb (truthy (args !! "searchText"))
      then throw "Search text is required for find operation"
      else
        let searchText := arg_str (args !! "searchText") in
        foundReminders <~ findReminders P searchText ;;
        ret {| text :=
                 if some foundReminders
                 then "Found " +:+ pretty (length foundReminders)
                      +:+ " matching reminders:" +:+ nl +:+ nl
                      +:+ join (nl +:+ nl) (map render_reminder foundReminders)
                 else "No reminders found matching " +:+ dq +:+ searchText +:+ dq;
               isError := false |}
    else if op_is "create" operation then
      if negb (truthy (args !! "title"))
      then throw "Title is required for create operation"
      else
        let due :=
          if truthy (args !! "dueDate")
          then Some (date_parse P (arg_str (args !! "dueDate"))) else None in
        let notes0 :=
          if truthy (args !! "notes") then arg_str (args !! "notes") else EmptyString in
        newReminder <~ createReminder P (arg_str (args !! "title")) notes0 due ;;
        match newReminder with
        | None => throw "Failed to create reminder"
        | Some r =>
            ret {| text :=
                     "Reminder created: " +:+ dq +:+ title r +:+ dq
                     +:+ match dueDate r with
                         | Some d => if nonempty d then " (Due: " +:+ d +:+ ")" else EmptyString
                         | None => EmptyString
                         end;
                   isError := false |}
        end
    else if op_is "complete" operation then
      if negb (truthy (args !! "id"))
      then throw "Reminder ID is required for complete operation"
      else
        success <~ completeReminder P (arg_str (args !! "id")) ;;
        ret {| text :=
                 if success then "Reminder marked as completed"
                 else "Failed to complete reminder. ID " +:+ arg_str (args !! "id")
                      +:+ " not found.";
               isError := negb success |}
    else throw ("Unknown operation: " +:+ arg_str operation).

Definition case_calendar (args : Args) : M CallToolResult :=
  if negb (isCalendarArgs args) then throw "Invalid arguments for calendar tool"
  else
    let operation := args !! "operation" in
    if op_is "list" operation then
      allEvents <~ getAllEvents P ;;
      ret {| text :=
               if some allEvents
               then "Found " +:+ pretty (length allEvents) +:+ " calendar events:" +:+ nl +:+ nl
                    +:+ join (nl +:+ nl) (map render_event allEvents)
               else "No calendar events found";
             isError := false |}
    else if op_is "find" operation then
      if negb (truthy (args !! "searchText"))
      then throw "Search text is required for find operation"
      else
        let searchText := arg_str (args !! "searchText") in
        let startDate :=
          if truthy (args !! "startDate")
          then Some (date_parse P (arg_str (args !! "startDate"))) else None in
        let endDate :=
          if truthy (args !! "endDate")
          then Some (date_parse P (arg_str (args !! "endDate"))) else None in
        foundEvents <~ findEvents P searchText startDate endDate ;;
        ret {| text :=
                 if some foundEvents
                 then "Found " +:+ pretty (length foundEvents)
                      +:+ " matching events:" +:+ nl +:+ nl
                      +:+ join (nl +:+ nl) (map render_event foundEvents)
                 else "No calendar events found matching " +:+ dq +:+ searchText +:+ dq;
               isError := false |}
    else if op_is "create" operation then
      if negb (truthy (args !! "title")) || negb (truthy (args !! "startDate"))
         || negb (truthy (args !! "duration"))
      then throw "Title, start date, and duration are required for create operation"
      else
        let startDate := date_parse P (arg_str (args !! "startDate")) in
        let opt (v : option JsValue) := if truthy v then arg_str v else EmptyString in
        newEvent <~ createEvent P (arg_str (args !! "title")) startDate
                      (arg_num (args !! "duration"))
                      (opt (args !! "description")) (opt (args !! "location")) ;;
        match newEvent with
        | None => throw "Failed to create calendar event"
        | Some ev =>
            let dateRange := locale (ev_startDate ev) +:+ " - " +:+ locale (ev_endDate ev) in
            ret {| text :=
                     "Calendar event created: " +:+ dq +:+ ev_title ev +:+ dq +:+ nl
                     +:+ dateRange
                     +:+ (if nonempty (ev_location ev)
                          then nl +:+ "Location: " +:+ ev_location ev else EmptyString);
                   isError := false |}
        end
    else throw ("Unknown operation: " +:+ arg_str operation).

(** The body of the outer [try]. *)
Definition handler_body (request : Request) : M CallToolResult :=
  match arguments request with
  | None => throw "No arguments provided"
  | Some args =>
      if String.eqb (name request) "contacts" then case_contacts args
      else if String.eqb (name request) "notes" then case_notes args
      else if String.eqb (name request) "messages" then case_messages args
      else if String.eqb (name request) "reminders" then case_reminders args
      else if String.eqb (name request) "calendar" then case_calendar args
      else ret {| text := "Unknown tool: " +:+ name request; isError := true |}
  end.

(** The handler registered for [CallToolRequestSchema]. *)
Definition handler (request : Request) : M CallToolResult :=
  try_catch (handler_body request)
    (fun e => ret {| text := "Error: " +:+ e; isError := true |}).

End Handler.

(** ** Vocabulary of the properties *)

(** The element lists of the sources that can be read, in source order. *)
Fixpoint readable {A} (srcs : list (Source A)) : list (list A) :=
  match srcs with
  | [] => []
  | Readable items :: rest => items :: readable rest
  | Unreadable _ :: rest => readable rest
  end.

Definition is_unreadable {A} (src : Source A) : bool :=
  match src with Readable _ => false | Unreadable _ => true end.

(** All events the Calendar application lets the scripts enumerate. *)
Definition enumerable_events (w : World) : list RawEvent :=
  concat (readable (map cal_events (calendars w))).

Definition enumerable_reminders (w : World) : list RawReminder :=
  concat (readable (reminder_lists w)).

(** The per-calendar search of [findEvents], as a function of the events
    one calendar returns. *)
Definition search_calendar (searchText : string) (s e : option Z)
    (evs : list RawEvent) : list RawEvent :=
  List.filter (text_filter searchText) (events_in_calendar s e evs).

(** The reading of "an inclusive date range that intersects the event's
    start/end interval": the two closed intervals share a point. *)
Definition intersects (s e : Z) (ev : RawEvent) : bool :=
  (e_startDate ev <=? e)%Z && (s <=? e_endDate ev)%Z.

(** The date-ranged search as the specification words it: candidates are
    the events whose interval intersects the range, then the text filter. *)
Definition spec_ranged_search (searchText : string) (s e : Z) (w : World)
    : list RawEvent :=
  concat (map (fun evs =>
                 List.filter (text_filter searchText)
                   (List.filter (intersects s e) evs))
              (readable (map cal_events (calendars w)))).

(** The two searches of a text-only calendar find. *)
Definition strict_events (P : Platform) (searchText : string) (s e : option Z)
    (w : World) : list CalendarEvent :=
  map (to_event P) (find_in_calendars searchText s e (calendars w)).

Definition fallback_events (P : Platform) (searchText : string) (w : World)
    : list CalendarEvent :=
  List.filter (event_matches P searchText) (map (to_event P) (enumerable_events w)).

Definition fallback_reminders (P : Platform) (searchText : string) (w : World)
    : list Reminder :=
  List.filter (reminder_matches P searchText)
    (map (to_reminder P) (enumerable_reminders w)).

(** The strict search of [findReminders]: what its script returns. *)
Definition strict_reminders (P : Platform) (searchText : string) (w : World)
    : Res (list RawReminder) :=
  for_lists (List.filter (whose_name_or_body P searchText)) [] (reminder_lists w).



Inductive Domain := DReminders | DCalendar.

Definition probe_of (d : Domain) : BridgeCall :=
  match d with DReminders => ProbeReminders | DCalendar => ProbeCalendar end.

Definition access (d : Domain) (w : World) : bool :=
  match d with
  | DReminders => reminders_access w
  | DCalendar => calendar_access w
  end.

(** The privacy pane each domain's remediation message points to. *)
Definition settings_path (d : Domain) : string :=
  match d with
  | DReminders => "System Preferences > Security & Privacy > Privacy > Reminders"
  | DCalendar => "System Preferences > Security & Privacy > Privacy > Calendars"
  end.

(** The remediation message of each access check. *)
Definition denied_message (d : Domain) : string :=
  match d with
  | DReminders => "Cannot access Reminders app. Please grant access in System Preferences > Security & Privacy > Privacy > Reminders."
  | DCalendar => "Cannot access Calendar app. Please grant access in System Preferences > Security & Privacy > Privacy > Calendars."
  end.

(** The world after the calls [cs] crossed the bridge. *)
Definition logged (cs : list BridgeCall) (w : World) : World :=
  fold_left (fun w' c => log_call c w') cs w.

(** The tool that serves a domain. *)
Definition tool_of (d : Domain) : string :=
  match d with DReminders => "reminders" | DCalendar => "calendar" end.

(** The exported operations of the two utility modules. *)
Inductive Operation :=
| OpGetAllReminders
| OpFindReminders (searchText : string)
| OpCreateReminder (title0 notes0 : string) (due : option JsDate)
| OpCompleteReminder (i : string)
| OpGetAllEvents
| OpFindEvents (searchText : string) (startDate endDate : option JsDate)
| OpCreateEvent (title0 : string) (startDate : JsDate) (duration : Q)
    (description location : string).

Definition domain_of (op : Operation) : Domain :=
  match op with
  | OpGetAllReminders | OpFindReminders _ | OpCreateReminder _ _ _
  | OpCompleteReminder _ => DReminders
  | OpGetAllEvents | OpFindEvents _ _ _ | OpCreateEvent _ _ _ _ _ => DCalendar
  end.

(** The error an operation rejects with, if any. *)
Definition error_of {A} (r : Res A * World) : option string * World :=
  match r with
  | (Ok _, w) => (None, w)
  | (Throw msg, w) => (Some msg, w)
  end.

Definition run_operation (P : Platform) (op : Operation) (w : World)
    : option string * World :=
  match op with
  | OpGetAllReminders => error_of (getAllReminders P w)
  | OpFindReminders t => error_of (findReminders P t w)
  | OpCreateReminder t n d => error_of (createReminder P t n d w)
  | OpCompleteReminder i => error_of (completeReminder P i w)
  | OpGetAllEvents => error_of (getAllEvents P w)
  | OpFindEvents t s e => error_of (findEvents P t s e w)
  | OpCreateEvent t s d de l => error_of (createEvent P t s d de l w)
  end.

(** The tools that dispatch on an [operation] argument, with the members
    of its [enum]. *)
Definition operations_of (tool : string) : option (list string) :=
  if String.eqb tool "messages" then Some ["send"; "read"; "schedule"; "unread"]
  else if String.eqb tool "reminders" then Some ["list"; "find"; "create"; "complete"]
  else if String.eqb tool "calendar" then Some ["list"; "find"; "create"]
  else None.

Definition known_tools : list string :=
  ["contacts"; "notes"; "messages"; "reminders"; "calendar"].

(** The guard the handler applies for a tool. *)
Definition guard_of (tool : string) (args : Args) : bool :=
  if String.eqb tool "contacts" then isContactsArgs args
  else if String.eqb tool "notes" then isNotesArgs args
  else if String.eqb tool "messages" then isMessagesArgs args
  else if String.eqb tool "reminders" then isRemindersArgs args
  else if String.eqb tool "calendar" then isCalendarArgs args
  else false.

(** A required text argument that passed the guard: a non-empty string. *)
Definition text_arg (args : Args) (k : string) : Prop :=
  exists s, args !! k = Some (JStr s) /\ nonempty s = true.

(** The required-field table of the interface description, row by row:
    tool, operation (none for the two lookup tools), required fields. *)
Definition spec_required_fields : list (string * option string * list string) :=
  [ ("contacts", None, []);
    ("notes", None, []);
    ("messages", Some "send", ["phoneNumber"; "message"]);
    ("messages", Some "read", ["phoneNumber"]);
    ("messages", Some "schedule", ["phoneNumber"; "message"; "scheduledTime"]);
    ("messages", Some "unread", []);
    ("reminders", Some "list", []);
    ("reminders", Some "find", ["searchText"]);
    ("reminders", Some "create", ["title"]);
    ("reminders", Some "complete", ["id"]);
    ("calendar", Some "list", []);
    ("calendar", Some "find", ["searchText"]);
    ("calendar", Some "create", ["title"; "startDate"; "duration"]) ].

(** The fields each guard type-checks, with the [typeof] it expects. *)
Definition field_types (tool : string) : list (string * string) :=
  if String.eqb tool "contacts" then [("name", "string")]
  else if String.eqb tool "notes" then [("searchText", "string")]
  else if String.eqb tool "messages" then
    [("phoneNumber", "string"); ("message", "string"); ("limit", "number");
     ("scheduledTime", "string")]
  else if String.eqb tool "reminders" then
    [("searchText", "string"); ("title", "string"); ("notes", "string");
     ("dueDate", "string"); ("id", "string")]
  else if String.eqb tool "calendar" then
    [("searchText", "string"); ("startDate", "string"); ("endDate", "string");
     ("title", "string"); ("description", "string"); ("location", "string");
     ("duration", "number")]
  else [].

(** Every field the guard looks at is absent or of its expected type. *)
Definition well_typed (tool : string) (args : Args) : bool :=
  forallb (fun ft : string * string =>
             negb (has_key args ft.1) || is_type ft.2 (args !! ft.1))
          (field_types tool).

(** The request names the operation of a table row. *)
Definition operation_is (op : option string) (args : Args) : Prop :=
  match op with
  | Some o => args !! "operation" = Some (JStr o)
  | None => True
  end.

(** ** A concrete platform and worlds for the examples *)

Module Demo.

(** An example runtime in the UTC time zone.  [parse] reads the full ISO
    format [YYYY-MM-DDTHH:MM:SS.mmmZ], which is what the tool descriptions
    ask for, and takes every other string for an invalid date. *)
Fixpoint parse_digits (s : string) (acc : Z) : option Z :=
  match s with
  | EmptyString => Some acc
  | String c s' =>
      let n := Ascii.nat_of_ascii c in
      if (48 <=? n)%nat && (n <=? 57)%nat
      then parse_digits s' (acc * 10 + Z.of_nat (n - 48))%Z
      else None
  end.

Definition field (from len : nat) (s : string) : option Z :=
  parse_digits (String.substring from len s) 0.

Definition sep (at_ : nat) (c : string) (s : string) : bool :=
  String.eqb (String.substring at_ 1 s) c.

(** Days between 1970-01-01 and a date of the proleptic Gregorian
    calendar, and back. *)
Definition days_from_civil (y m d : Z) : Z :=
  let y' := if (m <=? 2)%Z then (y - 1)%Z else y in
  let era := (y' / 400)%Z in
  let yoe := (y' - era * 400)%Z in
  let mp := if (2 <? m)%Z then (m - 3)%Z else (m + 9)%Z in
  let doy := ((153 * mp + 2) / 5 + d - 1)%Z in
  let doe := (yoe * 365 + yoe / 4 - yoe / 100 + doy)%Z in
  (era * 146097 + doe - 719468)%Z.

Definition civil_from_days (z : Z) : Z * Z * Z :=
  let z' := (z + 719468)%Z in
  let era := (z' / 146097)%Z in
  let doe := (z' - era * 146097)%Z in
  let yoe := ((doe - doe / 1460 + doe / 36524 - doe / 146096) / 365)%Z in
  let doy := (doe - (365 * yoe + yoe / 4 - yoe / 100))%Z in
  let mp := ((5 * doy + 2) / 153)%Z in
  let d := (doy - (153 * mp + 2) / 5 + 1)%Z in
  let m := if (mp <? 10)%Z then (mp + 3)%Z else (mp - 9)%Z in
  let y := (yoe + era * 400)%Z in
  (if (m <=? 2)%Z then (y + 1)%Z else y, m, d).

Definition parse (s : string) : JsDate :=
  if (String.length s =? 24)%nat
     && sep 4 "-" s && sep 7 "-" s && sep 10 "T" s && sep 13 ":" s
     && sep 16 ":" s && sep 19 "." s && sep 23 "Z" s
  then
    match field 0 4 s, field 5 2 s, field 8 2 s, field 11 2 s, field 14 2 s,
          field 17 2 s, field 20 3 s with
    | Some y, Some m, Some d, Some hh, Some mm, Some ss, Some ms =>
        if (1 <=? m)%Z && (m <=? 12)%Z && (1 <=? d)%Z
           && (hh <? 24)%Z && (mm <? 60)%Z && (ss <? 60)%Z
           && bool_decide (civil_from_days (days_from_civil y m d) = (y, m, d))
        then ValidDate ((((days_from_civil y m d * 24 + hh) * 60 + mm) * 60 + ss)
                        * 1000 + ms)%Z
        else InvalidDate
    | _, _, _, _, _, _, _ => InvalidDate
    end
  else InvalidDate.

Definition pad (width : nat) (z : Z) : string :=
  let t := pretty z in
  String.concat EmptyString (replicate (width - String.length t) "0") +:+ t.

Definition name_of (names : list string) (i : Z) : string :=
  nth (Z.to_nat i) names EmptyString.

Definition clock (ms : Z) : Z * Z * Z :=
  let r := (ms mod 86400000)%Z in
  ((r / 3600000)%Z, ((r / 60000) mod 60)%Z, ((r / 1000) mod 60)%Z).

(** [Date.prototype.toString], which shows whole seconds only. *)
Definition to_string (ms : Z) : string :=
  let days := (ms / 86400000)%Z in
  let '(y, m, d) := civil_from_days days in
  let '(hh, mm, ss) := clock ms in
  name_of ["Sun"; "Mon"; "Tue"; "Wed"; "Thu"; "Fri"; "Sat"] ((days + 4) mod 7)
  +:+ " "
  +:+ name_of ["Jan"; "Feb"; "Mar"; "Apr"; "May"; "Jun"; "Jul"; "Aug"; "Sep";
               "Oct"; "Nov"; "Dec"] (m - 1)
  +:+ " " +:+ pad 2 d +:+ " " +:+ pad 4 y +:+ " "
  +:+ pad 2 hh +:+ ":" +:+ pad 2 mm +:+ ":" +:+ pad 2 ss
  +:+ " GMT+0000 (Coordinated Universal Time)".

(** [toLocaleString] in the en-US locale. *)
Definition to_locale_string (d : JsDate) : string :=
  match d with
  | InvalidDate => "Invalid Date"
  | ValidDate ms =>
      let '(y, m, d) := civil_from_days (ms / 86400000) in
      let '(hh, mm, ss) := clock ms in
      let h12 := if (hh mod 12 =? 0)%Z then 12%Z else (hh mod 12)%Z in
      pretty m +:+ "/" +:+ pretty d +:+ "/" +:+ pretty y +:+ ", "
      +:+ pretty h12 +:+ ":" +:+ pad 2 mm +:+ ":" +:+ pad 2 ss
      +:+ (if (hh <? 12)%Z then " AM" else " PM")
  end.

(** [toLowerCase] on the ASCII text of the examples: the letters A-Z are
    lower-cased, other bytes are kept. *)
Definition lower_ascii (c : Ascii.ascii) : Ascii.ascii :=
  let n := Ascii.nat_of_ascii c in
  if (65 <=? n)%nat && (n <=? 90)%nat then Ascii.ascii_of_nat (n + 32) else c.

Fixpoint lower (s : string) : string :=
  match s with
  | EmptyString => EmptyString
  | String c s' => String (lower_ascii c) (lower s')
  end.

(** The examples add whole minutes only, where the exact sum is what
    double arithmetic gives. *)
Definition platform : Platform :=
  {| date_parse := parse;
     date_after_minutes :=
       fun ms duration =>
         timeClip (Qplus (inject_Z ms) (Qmult duration (inject_Z 60000)));
     toLowerCase := lower;
     date_toString := to_string;
     date_toLocaleString := to_locale_string;
     range_error := "Invalid time value";
     probe_error := "execution error: Not authorized to send Apple events";
     no_default := "Can't get default container";
     whose_contains := fun s t => includes (lower (or_empty s)) (lower t);
     fresh_reminder_id := fun ls => "r" +:+ pretty (length (concat (readable ls)));
     fresh_event_id := fun cs => "e" +:+ pretty (length cs);
     contacts_findNumber := fun _ => ret [];
     contacts_getAllNumbers := ret [];
     contacts_findContactByPhone := fun _ => ret None;
     notes_findNote := fun _ => ret [];
     notes_getAllNotes := ret [];
     message_sendMessage := fun _ _ => ret tt;
     message_readMessages := fun _ _ => ret [];
     message_scheduleMessage := fun _ _ _ => ret EmptyString;
     message_getUnreadMessages := fun _ => ret [] |}.

Definition rent : RawReminder :=
  {| r_id := "r0"; r_name := "Pay rent"; r_body := None;
     r_dueDate := Some 1000%Z; r_completed := false |}.

Definition call_mom : RawReminder :=
  {| r_id := "r1"; r_name := "Call mom"; r_body := Some "birthday";
     r_dueDate := None; r_completed := false |}.

Definition standup : RawEvent :=
  {| e_id := "e0"; e_summary := "Standup"; e_description := None;
     e_location := Some "Room 4"; e_startDate := 5%Z; e_endDate := 15%Z;
     e_calendarName := "Work" |}.

Definition dentist : RawEvent :=
  {| e_id := "e1"; e_summary := "Dentist"; e_description := Some "checkup";
     e_location := None; e_startDate := 12%Z; e_endDate := 18%Z;
     e_calendarName := "Home" |}.

(** Access granted, every list and calendar readable. *)
Definition home : World :=
  {| reminders_access := true;
     reminder_lists := [Readable [rent]; Readable [call_mom]];
     default_list := 0;
     calendar_access := true;
     calendars := [ {| cal_name := "Work"; cal_events := Readable [standup] |};
                    {| cal_name := "Home"; cal_events := Readable [dentist] |} ];
     default_calendar := 0;
     bridge_log := [] |}.

(** Both probes fail. *)
Definition locked : World :=
  {| reminders_access := false;
     reminder_lists := reminder_lists home;
     default_list := 0;
     calendar_access := false;
     calendars := calendars home;
     default_calendar := 0;
     bridge_log := [] |}.

(** Access granted, but no list and no calendar can be read. *)
Definition broken : World :=
  {| reminders_access := true;
     reminder_lists := [Unreadable "list 1 failed"; Unreadable "list 2 failed"];
     default_list := 0;
     calendar_access := true;
     calendars := [ {| cal_name := "Work"; cal_events := Unreadable "denied" |};
                    {| cal_name := "Home"; cal_events := Unreadable "denied" |} ];
     default_calendar := 0;
     bridge_log := [] |}.

Definition request (tool : string) (fields : list (string * JsValue)) : Request :=
  {| name := tool; arguments := Some (list_to_map fields) |}.

End Demo.

(** ** Vocabulary of the further properties *)

(** The prefix each utility function puts before the message it rethrows. *)
Definition error_prefix (op : Operation) : string :=
  match op with
  | OpGetAllReminders => "Error accessing reminders: "
  | OpFindReminders _ => "Error finding reminders: "
  | OpCreateReminder _ _ _ => "Error creating reminder: "
  | OpCompleteReminder _ => "Error completing reminder: "
  | OpGetAllEvents => "Error accessing calendar events: "
  | OpFindEvents _ _ _ => "Error finding calendar events: "
  | OpCreateEvent _ _ _ _ _ => "Error creating calendar event: "
  end.

(** The operations that only read. *)
Definition is_read (op : Operation) : bool :=
  match op with
  | OpGetAllReminders | OpFindReminders _ | OpGetAllEvents | OpFindEvents _ _ _ => true
  | _ => false
  end.

(** An operation one of whose [Date] arguments cannot be written as an ISO
    string: an invalid date passed in, or an event end that [new Date]
    clips to the invalid date. *)
Definition has_invalid_date (P : Platform) (op : Operation) : bool :=
  match op with
  | OpCreateReminder _ _ (Some InvalidDate) => true
  | OpFindEvents _ (Some InvalidDate) _ => true
  | OpFindEvents _ _ (Some InvalidDate) => true
  | OpCreateEvent _ startDate duration _ _ =>
      match startDate, end_of P startDate duration with
      | ValidDate _, ValidDate _ => false
      | _, _ => true
      end
  | _ => false
  end.

(** One reminder before and after a completion: untouched, or the same
    reminder with [completed] set. *)
Definition marked (r r' : RawReminder) : Prop :=
  r' = r \/ r' = set_completed r.

Definition source_marked (src src' : Source RawReminder) : Prop :=
  match src, src' with
  | Readable items, Readable items' => Forall2 marked items items'
  | Unreadable msg, Unreadable msg' => msg = msg'
  | _, _ => False
  end.

(** The messages of the handler's own checks behind the guards and of its
    [null] tests on a created item, as the outer [catch] would render
    them. *)
Definition unreachable_messages : list string :=
  [ "Error: Search text is required for find operation";
    "Error: Title is required for create operation";
    "Error: Reminder ID is required for complete operation";
    "Error: Failed to create reminder";
    "Error: Title, start date, and duration are required for create operation";
    "Error: Failed to create calendar event" ].

(** What a step leaves alone: the permission bits and the default list and
    calendar always, and the reminder lists or the calendars when asked. *)
Definition frame (keep_reminders keep_calendars : bool) (w w' : World) : Prop :=
  reminders_access w' = reminders_access w
  /\ calendar_access w' = calendar_access w
  /\ default_list w' = default_list w
  /\ default_calendar w' = default_calendar w
  /\ (keep_reminders = true -> reminder_lists w' = reminder_lists w)
  /\ (keep_calendars = true -> calendars w' = calendars w).

(** A computation every run of which respects [R], whatever it returns. *)
Definition preserves {A} (R : World -> World -> Prop) (m : M A) : Prop :=
  forall w, R w (snd (m w)).

(** The event object that the script of [createEvent] builds in calendar
    [cal] of a world with calendars [cals]. *)
Definition new_event (P : Platform) (cals : list Calendar) (cal : Calendar)
    (title0 : string) (s e : Z) (description location : string) : RawEvent :=
  {| e_id := fresh_event_id P cals;
     e_summary := title0;
     e_description := Some description;
     e_location := Some location;
     e_startDate := s;
     e_endDate := e;
     e_calendarName := cal_name cal |}.

(** What IEEE double arithmetic gives [startDate.getTime() + duration *
    60000] for a whole number of minutes and a start inside the range of
    Date: product and sum are exact wherever the sum is inside the range,
    and the sum is outside it otherwise. *)
Definition whole_minutes_exact (P : Platform) : Prop :=
  forall s n : Z,
    (Z.abs s <= 8640000000000000)%Z ->
    date_after_minutes P s (inject_Z n) = timeClip (inject_Z (s + n * 60000)).

(** * Properties *)

(** ** The loops of the scripts *)

Lemma for_calendars_concat {B} (body : list RawEvent -> list B) acc cals :
  for_calendars body acc cals
  = acc ++ concat (map body (readable (map cal_events cals))).
Proof.
  revert acc. induction cals as [|c cals IH]; intros acc; simpl.
  - by rewrite app_nil_r.
  - destruct (cal_events c); simpl; rewrite IH; [|done].
    by rewrite <- app_assoc.
Qed.

Lemma for_lists_ok {A B} (body : list A -> list B) acc srcs r :
  for_lists body acc srcs = Ok r ->
  r = acc ++ concat (map body (readable srcs))
  /\ srcs = map Readable (readable srcs).
Proof.
  revert acc. induction srcs as [|[items|msg] srcs IH]; intros acc; simpl.
  - intros [= <-]. by rewrite app_nil_r.
  - intros H. destruct (IH _ H) as [-> Hs]. split.
    + by rewrite <- app_assoc.
    + by rewrite <- Hs.
  - done.
Qed.

Lemma readable_map_Readable {A} (ls : list (list A)) :
  readable (map Readable ls) = ls.
Proof. induction ls; simpl; congruence. Qed.

Lemma for_lists_readable {A B} (body : list A -> list B) acc ls :
  for_lists body acc (map Readable ls) = Ok (acc ++ concat (map body ls)).
Proof.
  revert acc. induction ls as [|l ls IH]; intros acc; simpl.
  - by rewrite app_nil_r.
  - rewrite IH. by rewrite <- app_assoc.
Qed.

(** A list that raises stops the loop with its message. *)
Lemma for_lists_throws {A B} (body : list A -> list B) acc srcs :
  existsb is_unreadable srcs = true ->
  exists msg, for_lists body acc srcs = Throw msg /\ Unreadable msg ∈ srcs.
Proof.
  revert acc. induction srcs as [|[items|msg] srcs IH]; intros acc; simpl.
  - done.
  - intros H. destruct (IH (acc ++ body items) H) as (m & Hm & Hin).
    exists m. split; [done|]. by apply list_elem_of_further.
  - intros _. exists msg. split; [done|]. apply list_elem_of_here.
Qed.

Lemma readable_all_unreadable {A} (srcs : list (Source A)) :
  forallb is_unreadable srcs = true -> readable srcs = [].
Proof.
  induction srcs as [|[items|msg] srcs IH]; simpl; try done.
Qed.

(** ** What each utility function computes *)

Section UtilsRun.
Context (P : Platform).

Lemma calls_since_logged cs w : calls_since w (logged cs w) = cs.
Proof.
  unfold calls_since.
  assert (H : forall cs w0, bridge_log (logged cs w0) = bridge_log w0 ++ cs).
  { clear. induction cs as [|c cs IH]; intros w0; simpl.
    - by rewrite app_nil_r.
    - unfold logged in IH. rewrite IH. simpl. by rewrite <- app_assoc. }
  rewrite H. apply drop_app_length.
Qed.

Lemma checkRemindersAccess_run w :
  checkRemindersAccess P w
  = (if reminders_access w then Ok true else Throw (denied_message DReminders),
     logged [ProbeReminders] w).
Proof.
  unfold checkRemindersAccess, try_catch, bind, probe_reminders, ret, throw.
  by destruct (reminders_access w).
Qed.

Lemma checkCalendarAccess_run w :
  checkCalendarAccess P w
  = (if calendar_access w then Ok true else Throw (denied_message DCalendar),
     logged [ProbeCalendar] w).
Proof.
  unfold checkCalendarAccess, try_catch, bind, probe_calendar, ret, throw.
  by destruct (calendar_access w).
Qed.

Lemma getAllReminders_run w :
  getAllReminders P w
  = if reminders_access w then
      (match for_lists (fun items => items) [] (reminder_lists w) with
       | Ok allReminders => Ok (map (to_reminder P) allReminders)
       | Throw msg => Throw ("Error accessing reminders: " +:+ msg)
       end,
       logged [ProbeReminders; RunGetAllReminders] w)
    else (Throw ("Error accessing reminders: " +:+ denied_message DReminders),
          logged [ProbeReminders] w).
Proof.
  unfold getAllReminders, try_catch, bind. rewrite checkRemindersAccess_run.
  destruct (reminders_access w); [|done]. simpl.
  unfold run_getAllReminders. simpl.
  by destruct (for_lists _ _ _).
Qed.

Lemma getAllEvents_run w :
  getAllEvents P w
  = if calendar_access w then
      (Ok (map (to_event P) (enumerable_events w)),
       logged [ProbeCalendar; RunGetAllEvents] w)
    else (Throw ("Error accessing calendar events: " +:+ denied_message DCalendar),
          logged [ProbeCalendar] w).
Proof.
  unfold getAllEvents, try_catch, bind. rewrite checkCalendarAccess_run.
  destruct (calendar_access w); [|done]. simpl.
  unfold run_getAllEvents, enumerable_events. simpl.
  rewrite for_calendars_concat. simpl. by rewrite map_id.
Qed.

Lemma findEvents_run searchText (s e : option Z) w :
  findEvents P searchText (ValidDate <$> s) (ValidDate <$> e) w
  = if calendar_access w then
      let strict := map (to_event P) (find_in_calendars searchText s e (calendars w)) in
      if (length strict =? 0)%nat && negb (date_given s) && negb (date_given e)
      then (Ok (List.filter (event_matches P searchText)
                  (map (to_event P) (enumerable_events w))),
            logged [ProbeCalendar; RunFindEvents searchText s e;
                    ProbeCalendar; RunGetAllEvents] w)
      else (Ok strict, logged [ProbeCalendar; RunFindEvents searchText s e] w)
    else (Throw ("Error finding calendar events: " +:+ denied_message DCalendar),
          logged [ProbeCalendar] w).
Proof.
  unfold findEvents, try_catch, bind. rewrite checkCalendarAccess_run.
  destruct (calendar_access w) eqn:Hacc; [|done]. simpl.
  assert (Hs : forall (d : option Z) w0,
             toISOString_opt P (ValidDate <$> d) w0 = (Ok d, w0)).
  { by intros [d|] w0. }
  rewrite Hs. simpl. rewrite Hs. simpl.
  assert (Hg : forall d : option Z, date_given (ValidDate <$> d) = date_given d).
  { by intros [d|]. }
  rewrite !Hg. unfold run_findEvents, ret. simpl.
  destruct (_ && _ && _); [|done].
  rewrite getAllEvents_run. simpl. by rewrite Hacc.
Qed.

Lemma findEvents_invalid_date searchText (sd ed : option JsDate) w :
  calendar_access w = true ->
  sd = Some InvalidDate \/ ed = Some InvalidDate ->
  findEvents P searchText sd ed w
  = (Throw ("Error finding calendar events: " +:+ range_error P),
     logged [ProbeCalendar] w).
Proof.
  intros Hacc Hbad.
  unfold findEvents, try_catch, bind. rewrite checkCalendarAccess_run, Hacc. simpl.
  destruct sd as [[s|]|]; simpl; try done;
    destruct Hbad as [Hb|Hb]; try done; by inversion Hb.
Qed.

Lemma findReminders_run searchText w :
  findReminders P searchText w
  = if reminders_access w then
      match for_lists (List.filter (whose_name_or_body P searchText)) []
              (reminder_lists w) with
      | Throw msg =>
          (Throw ("Error finding reminders: " +:+ msg),
           logged [ProbeReminders; RunFindReminders searchText] w)
      | Ok [] =>
          (Ok (List.filter (reminder_matches P searchText)
                 (map (to_reminder P) (enumerable_reminders w))),
           logged [ProbeReminders; RunFindReminders searchText;
                   ProbeReminders; RunGetAllReminders] w)
      | Ok strict =>
          (Ok (map (to_reminder P) strict),
           logged [ProbeReminders; RunFindReminders searchText] w)
      end
    else (Throw ("Error finding reminders: " +:+ denied_message DReminders),
          logged [ProbeReminders] w).
Proof.
  unfold findReminders, try_catch, bind. rewrite checkRemindersAccess_run.
  destruct (reminders_access w) eqn:Hacc; [|done]. simpl.
  destruct (for_lists _ _ _) as [[|r strict]|msg] eqn:Hloop; simpl; [|done..].
  rewrite getAllReminders_run. simpl. rewrite Hacc.
  apply for_lists_ok in Hloop as [_ Hreadable].
  unfold enumerable_reminders. rewrite Hreadable at 1.
  rewrite for_lists_readable. simpl. by rewrite map_id.
Qed.

Lemma createReminder_run title0 notes0 (due : option Z) w :
  createReminder P title0 notes0 (ValidDate <$> due) w
  = if reminders_access w then
      let w1 := logged [ProbeReminders; RunCreateReminder title0 notes0 due] w in
      let reminder :=
        {| r_id := fresh_reminder_id P (reminder_lists w);
           r_name := title0; r_body := Some notes0;
           r_dueDate := due; r_completed := false |} in
      match reminder_lists w !! default_list w with
      | None => (Throw ("Error creating reminder: " +:+ no_default P), w1)
      | Some (Unreadable msg) => (Throw ("Error creating reminder: " +:+ msg), w1)
      | Some (Readable items) =>
          (Ok (Some (to_reminder P reminder)),
           set_reminder_lists
             (<[default_list w := Readable (items ++ [reminder])]> (reminder_lists w)) w1)
      end
    else (Throw ("Error creating reminder: " +:+ denied_message DReminders),
          logged [ProbeReminders] w).
Proof.
  unfold createReminder, try_catch, bind. rewrite checkRemindersAccess_run.
  destruct (reminders_access w) eqn:Hacc; [|done]. simpl.
  assert (Hs : forall w0, toISOString_opt P (ValidDate <$> due) w0 = (Ok due, w0)).
  { by destruct due. }
  rewrite Hs. unfold run_createReminder. simpl.
  destruct (reminder_lists w !! default_list w) as [[items|msg]|]; done.
Qed.

Lemma completeReminder_run i w :
  completeReminder P i w
  = if reminders_access w then
      let w1 := logged [ProbeReminders; RunCompleteReminder i] w in
      match complete_in_lists i (reminder_lists w) with
      | Throw msg => (Throw ("Error completing reminder: " +:+ msg), w1)
      | Ok None => (Ok false, w1)
      | Ok (Some lists') => (Ok true, set_reminder_lists lists' w1)
      end
    else (Throw ("Error completing reminder: " +:+ denied_message DReminders),
          logged [ProbeReminders] w).
Proof.
  unfold completeReminder, try_catch, bind. rewrite checkRemindersAccess_run.
  destruct (reminders_access w) eqn:Hacc; [|done]. simpl.
  unfold run_completeReminder. simpl.
  by destruct (complete_in_lists _ _) as [[lists'|]|msg].
Qed.

Lemma createEvent_denied title0 startDate duration description location w :
  calendar_access w = false ->
  createEvent P title0 startDate duration description location w
  = (Throw ("Error creating calendar event: " +:+ denied_message DCalendar),
     logged [ProbeCalendar] w).
Proof.
  intros Hacc. unfold createEvent, try_catch, bind.
  by rewrite checkCalendarAccess_run, Hacc.
Qed.

Lemma createReminder_denied title0 notes0 due w :
  reminders_access w = false ->
  createReminder P title0 notes0 due w
  = (Throw ("Error creating reminder: " +:+ denied_message DReminders),
     logged [ProbeReminders] w).
Proof.
  intros Hacc. unfold createReminder, try_catch, bind.
  by rewrite checkRemindersAccess_run, Hacc.
Qed.

Lemma findEvents_denied searchText sd ed w :
  calendar_access w = false ->
  findEvents P searchText sd ed w
  = (Throw ("Error finding calendar events: " +:+ denied_message DCalendar),
     logged [ProbeCalendar] w).
Proof.
  intros Hacc. unfold findEvents, try_catch, bind.
  by rewrite checkCalendarAccess_run, Hacc.
Qed.

End UtilsRun.

(** ** What a passing guard establishes *)

Lemma truthy_string_inv (v : option JsValue) :
  truthy v = true -> type_ok "string" v = true ->
  exists s, v = Some (JStr s) /\ nonempty s = true.
Proof.
  destruct v as [[|b|q|s|]|]; simpl; try done.
  - by destruct b.
  - unfold type_ok. simpl. by destruct (negb (Qeq_bool q 0)).
  - eauto.
Qed.

Lemma truthy_number_inv (v : option JsValue) :
  truthy v = true -> type_ok "number" v = true ->
  exists q, v = Some (JNum q) /\ Qeq_bool q 0 = false.
Proof.
  destruct v as [[|b|q|s|]|]; simpl; try done.
  - by destruct b.
  - intros H _. exists q. split; [done|]. by destruct (Qeq_bool q 0).
  - unfold type_ok. simpl. by destruct (nonempty s).
Qed.

Lemma text_arg_truthy args k : text_arg args k -> truthy (args !! k) = true.
Proof. by intros (s & -> & Hs). Qed.

Ltac in_list := apply list_elem_of_In; simpl; tauto.

Ltac case_operation s lit :=
  let E := fresh "E" in
  destruct (String.eqb s lit) eqn:E;
  [apply String.eqb_eq in E; subst s | ].

Ltac split_guard H :=
  repeat match type of H with
         | (if negb ?b then false else _) = true =>
             let E := fresh "E" in destruct b eqn:E; simpl in H; [|discriminate H]
         | (if ?b then false else _) = true =>
             let E := fresh "E" in destruct b eqn:E; simpl in H; [discriminate H|]
         end.

Lemma isRemindersArgs_inv (args : Args) :
  isRemindersArgs args = true ->
  args !! "operation" = Some (JStr "list")
  \/ (args !! "operation" = Some (JStr "find") /\ text_arg args "searchText")
  \/ (args !! "operation" = Some (JStr "create") /\ text_arg args "title")
  \/ (args !! "operation" = Some (JStr "complete") /\ text_arg args "id").
Proof.
  unfold isRemindersArgs. intros H.
  destruct (args !! "operation") as [[|b|q|s|]|] eqn:Eo; simpl in H; try done.
  { by destruct b. }
  { by destruct (negb (Qeq_bool q 0)). }
  destruct (nonempty s); simpl in H; [|done].
  case_operation s "list"; [by left|].
  case_operation s "find".
  { right; left. split; [done|]. simpl in H. split_guard H.
    apply truthy_string_inv; [by destruct (truthy _)|done]. }
  case_operation s "create".
  { right; right; left. split; [done|]. simpl in H. split_guard H.
    apply truthy_string_inv; [by destruct (truthy _)|done]. }
  case_operation s "complete".
  { right; right; right. split; [done|]. simpl in H. split_guard H.
    apply truthy_string_inv; [by destruct (truthy _)|done]. }
  simpl in H. done.
Qed.

Lemma isCalendarArgs_inv (args : Args) :
  isCalendarArgs args = true ->
  args !! "operation" = Some (JStr "list")
  \/ (args !! "operation" = Some (JStr "find") /\ text_arg args "searchText")
  \/ (args !! "operation" = Some (JStr "create")
      /\ text_arg args "title" /\ text_arg args "startDate"
      /\ exists q, args !! "duration" = Some (JNum q) /\ Qeq_bool q 0 = false).
Proof.
  unfold isCalendarArgs. intros H.
  destruct (args !! "operation") as [[|b|q|s|]|] eqn:Eo; simpl in H; try done.
  { by destruct b. }
  { by destruct (negb (Qeq_bool q 0)). }
  destruct (nonempty s); simpl in H; [|done].
  case_operation s "list"; [by left|].
  case_operation s "find".
  { right; left. split; [done|]. simpl in H. split_guard H.
    apply truthy_string_inv; [by destruct (truthy _)|done]. }
  case_operation s "create".
  { right; right. split; [done|]. simpl in H. split_guard H.
    destruct (truthy (args !! "title")) eqn:Ht; [|done].
    destruct (truthy (args !! "startDate")) eqn:Hs; [|done].
    destruct (truthy (args !! "duration")) eqn:Hd; [|done].
    split; [by apply truthy_string_inv|].
    split; [by apply truthy_string_inv|].
    by apply truthy_number_inv. }
  simpl in H. done.
Qed.

(** ** Capability gate *)

Lemma run_operation_denied (P : Platform) (op : Operation) (w : World) :
  access (domain_of op) w = false ->
  exists pre,
    run_operation P op w
    = (Some (pre +:+ denied_message (domain_of op)),
       logged [probe_of (domain_of op)] w)
    /\ pre ∈ ["Error accessing reminders: "; "Error finding reminders: ";
              "Error creating reminder: "; "Error completing reminder: ";
              "Error accessing calendar events: ";
              "Error finding calendar events: ";
              "Error creating calendar event: "].
Proof.
  intros Hacc. destruct op; simpl in *.
  - rewrite getAllReminders_run, Hacc. eexists; split; [done|in_list].
  - rewrite findReminders_run, Hacc. eexists; split; [done|in_list].
  - rewrite createReminder_denied by done. eexists; split; [done|in_list].
  - rewrite completeReminder_run, Hacc. eexists; split; [done|in_list].
  - rewrite getAllEvents_run, Hacc. eexists; split; [done|in_list].
  - rewrite findEvents_denied by done. eexists; split; [done|in_list].
  - rewrite createEvent_denied by done. eexists; split; [done|in_list].
Qed.

Lemma handler_reminders_denied (P : Platform) (args : Args) (w : World) :
  isRemindersArgs args = true ->
  reminders_access w = false ->
  exists r,
    handler P {| name := "reminders"; arguments := Some args |} w
    = (Ok r, logged [ProbeReminders] w)
    /\ isError r = true
    /\ includes (text r) (settings_path DReminders) = true.
Proof.
  intros Hguard Hacc.
  unfold handler, handler_body, try_catch. simpl.
  unfold case_reminders. rewrite Hguard. simpl.
  destruct (isRemindersArgs_inv args Hguard)
    as [Eo|[[Eo Ha]|[[Eo Ha]|[Eo Ha]]]]; rewrite Eo; simpl.
  - unfold bind. rewrite getAllReminders_run, Hacc. by eexists.
  - rewrite (text_arg_truthy _ _ Ha). simpl.
    unfold bind. rewrite findReminders_run, Hacc. by eexists.
  - rewrite (text_arg_truthy _ _ Ha). simpl.
    unfold bind. rewrite createReminder_denied by done. by eexists.
  - rewrite (text_arg_truthy _ _ Ha). simpl.
    unfold bind. rewrite completeReminder_run, Hacc. by eexists.
Qed.

Lemma handler_calendar_denied (P : Platform) (args : Args) (w : World) :
  isCalendarArgs args = true ->
  calendar_access w = false ->
  exists r,
    handler P {| name := "calendar"; arguments := Some args |} w
    = (Ok r, logged [ProbeCalendar] w)
    /\ isError r = true
    /\ includes (text r) (settings_path DCalendar) = true.
Proof.
  intros Hguard Hacc.
  unfold handler, handler_body, try_catch. simpl.
  unfold case_calendar. rewrite Hguard. simpl.
  destruct (isCalendarArgs_inv args Hguard)
    as [Eo|[[Eo Ha]|(Eo & Ht & Hs & q & Hq & Hq0)]]; rewrite Eo; simpl.
  - unfold bind. rewrite getAllEvents_run, Hacc. by eexists.
  - rewrite (text_arg_truthy _ _ Ha). simpl.
    unfold bind. rewrite findEvents_denied by done. by eexists.
  - rewrite (text_arg_truthy _ _ Ht), (text_arg_truthy _ _ Hs), Hq. simpl.
    rewrite Hq0. simpl.
    unfold bind. rewrite createEvent_denied by done. by eexists.
Qed.

(** C7. For every operation of the reminders and calendar modules, when
    the domain's capability probe fails the operation rejects with an
    error whose message contains that domain's privacy settings path; the
    tool handler turns it into a result with [isError = true] carrying the
    same path; and the failed probe is the only call that crosses the
    bridge: no list or calendar is read or changed. *)
Theorem C7_failed_probe_denies_access (P : Platform) (d : Domain) (w : World) :
  access d w = false ->
  let w' := logged [probe_of d] w in
  (forall op, domain_of op = d ->
     exists msg,
       run_operation P op w = (Some msg, w')
       /\ includes msg (settings_path d) = true)
  /\ (forall args, guard_of (tool_of d) args = true ->
      exists r,
        handler P {| name := tool_of d; arguments := Some args |} w = (Ok r, w')
        /\ isError r = true
        /\ includes (text r) (settings_path d) = true)
  /\ calls_since w w' = [probe_of d]
  /\ reminder_lists w' = reminder_lists w
  /\ calendars w' = calendars w.
Proof.
  intros Hacc w'. split; [|split; [|split; [|done]]].
  - intros op <-. destruct (run_operation_denied P op w Hacc) as (pre & -> & Hpre).
    eexists. split; [done|].
    repeat (apply elem_of_cons in Hpre as [->|Hpre];
            [by destruct op|]).
    by apply elem_of_nil in Hpre.
  - intros args Hguard. destruct d; simpl in *.
    + by apply handler_reminders_denied.
    + by apply handler_calendar_denied.
  - apply calls_since_logged.
Qed.

Lemma C7_failed_probe_denies_access_witness :
  access DCalendar Demo.locked = false
  /\ exists msg,
       run_operation Demo.platform (OpFindEvents "Standup" None None) Demo.locked
       = (Some msg, logged [ProbeCalendar] Demo.locked)
       /\ includes msg (settings_path DCalendar) = true.
Proof.
  split; [reflexivity|].
  exact (proj1 (C7_failed_probe_denies_access Demo.platform DCalendar Demo.locked
                  eq_refl)
           (OpFindEvents "Standup" None None) eq_refl).
Defined.

(** ** Request dispatcher *)

Lemma handler_returns (P : Platform) (request : Request) (w : World) :
  exists r w',
    handler P request w = (Ok r, w')
    /\ forall e w1,
         handler_body P request w = (Throw e, w1) ->
         r = {| text := "Error: " +:+ e; isError := true |} /\ w' = w1.
Proof.
  unfold handler, try_catch.
  destruct (handler_body P request w) as [[r|e] w1].
  - exists r, w1. by split.
  - eexists _, w1. split; [done|]. by intros e' w2 [= <- <-].
Qed.

Lemma op_in_false_guard (tool : string) (ops : list string) (args : Args) :
  operations_of tool = Some ops ->
  op_in ops (args !! "operation") = false ->
  guard_of tool args = false.
Proof.
  unfold operations_of, guard_of. intros Hops Hin.
  destruct (String.eqb tool "messages") eqn:E1.
  { apply String.eqb_eq in E1 as ->. simpl. injection Hops as <-.
    unfold isMessagesArgs. rewrite Hin. by rewrite orb_true_r. }
  destruct (String.eqb tool "reminders") eqn:E2.
  { apply String.eqb_eq in E2 as ->. simpl. injection Hops as <-.
    unfold isRemindersArgs. rewrite Hin. by rewrite orb_true_r. }
  destruct (String.eqb tool "calendar") eqn:E3; [|done].
  apply String.eqb_eq in E3 as ->. simpl. injection Hops as <-.
  unfold isCalendarArgs. rewrite Hin. by rewrite orb_true_r.
Qed.

Lemma guard_false_throws (P : Platform) (tool : string) (args : Args) (w : World) :
  tool ∈ known_tools ->
  guard_of tool args = false ->
  handler_body P {| name := tool; arguments := Some args |} w
  = (Throw ("Invalid arguments for " +:+ tool +:+ " tool"), w).
Proof.
  unfold known_tools. intros Htool Hguard.
  repeat (apply elem_of_cons in Htool as [->|Htool];
          [unfold handler_body, guard_of in *; simpl in *;
           unfold case_contacts, case_notes, case_messages, case_reminders,
             case_calendar;
           by rewrite Hguard |]).
  by apply elem_of_nil in Htool.
Qed.

Lemma handler_contacts_error (P : Platform) (args : Args) (w w1 : World) e :
  isContactsArgs args = true ->
  (if truthy (args !! "name")
   then error_of (contacts_findNumber P (arg_str (args !! "name")) w)
   else error_of (contacts_getAllNumbers P w)) = (Some e, w1) ->
  handler P {| name := "contacts"; arguments := Some args |} w
  = (Ok {| text := "Error accessing contacts: " +:+ e; isError := true |}, w1).
Proof.
  intros Hguard Herr.
  unfold handler, handler_body, try_catch at 1. simpl.
  unfold case_contacts. rewrite Hguard. simpl.
  unfold try_catch, bind, ret.
  destruct (truthy (args !! "name")).
  - destruct (contacts_findNumber P _ w) as [[x|e'] w2]; simpl in Herr; [done|].
    by injection Herr as -> ->.
  - destruct (contacts_getAllNumbers P w) as [[x|e'] w2]; simpl in Herr; [done|].
    by injection Herr as -> ->.
Qed.

Lemma handler_notes_error (P : Platform) (args : Args) (w w1 : World) e :
  isNotesArgs args = true ->
  (if truthy (args !! "searchText")
   then error_of (notes_findNote P (arg_str (args !! "searchText")) w)
   else error_of (notes_getAllNotes P w)) = (Some e, w1) ->
  handler P {| name := "notes"; arguments := Some args |} w
  = (Ok {| text := "Error: " +:+ e; isError := true |}, w1).
Proof.
  intros Hguard Herr.
  unfold handler, handler_body, try_catch. simpl.
  unfold case_notes. rewrite Hguard. simpl. unfold bind, ret.
  destruct (truthy (args !! "searchText")).
  - destruct (notes_findNote P _ w) as [[x|e'] w2]; simpl in Herr; [done|].
    by injection Herr as -> ->.
  - destruct (notes_getAllNotes P w) as [[x|e'] w2]; simpl in Herr; [done|].
    by injection Herr as -> ->.
Qed.

Lemma handler_send_error (P : Platform) (args : Args) (w w1 : World) e :
  isMessagesArgs args = true ->
  args !! "operation" = Some (JStr "send") ->
  error_of (message_sendMessage P (arg_str (args !! "phoneNumber"))
              (arg_str (args !! "message")) w) = (Some e, w1) ->
  handler P {| name := "messages"; arguments := Some args |} w
  = (Ok {| text := "Error: " +:+ e; isError := true |}, w1).
Proof.
  intros Hguard Eo Herr.
  unfold handler, handler_body, try_catch. simpl.
  unfold case_messages. rewrite Hguard. simpl.
  unfold isMessagesArgs in Hguard. rewrite Eo in *. simpl in *.
  destruct (truthy (args !! "phoneNumber")); simpl in *; [|done].
  destruct (truthy (args !! "message")); simpl in *; [|done].
  unfold bind.
  destruct (message_sendMessage P _ _ w) as [[x|e'] w2]; simpl in Herr; [done|].
  by injection Herr as -> ->.
Qed.

Lemma handler_reminders_list_raises (P : Platform) (args : Args) (w : World) :
  isRemindersArgs args = true ->
  op_in ["list"; "find"] (args !! "operation") = true ->
  reminders_access w = true ->
  existsb is_unreadable (reminder_lists w) = true ->
  exists r w',
    handler P {| name := "reminders"; arguments := Some args |} w = (Ok r, w')
    /\ isError r = true
    /\ startsWith "Error: " (text r) = true.
Proof.
  intros Hguard Hop Hacc Hbad.
  unfold handler, handler_body, try_catch. simpl.
  unfold case_reminders. rewrite Hguard. simpl.
  destruct (isRemindersArgs_inv args Hguard)
    as [Eo|[[Eo Ha]|[[Eo Ha]|[Eo Ha]]]]; rewrite Eo in *; simpl; try done.
  - unfold bind. rewrite getAllReminders_run, Hacc.
    destruct (for_lists_throws (fun items : list RawReminder => items) []
                (reminder_lists w) Hbad) as (msg & -> & _).
    by eexists _, _.
  - rewrite (text_arg_truthy _ _ Ha). simpl.
    unfold bind. rewrite findReminders_run, Hacc.
    destruct (for_lists_throws
                (List.filter (whose_name_or_body P (arg_str (args !! "searchText"))))
                [] (reminder_lists w) Hbad) as (msg & -> & _).
    by eexists _, _.
Qed.

Lemma handler_calendars_all_raise (P : Platform) (args : Args) (w : World) :
  args !! "operation" = Some (JStr "list") ->
  isCalendarArgs args = true ->
  calendar_access w = true ->
  forallb is_unreadable (map cal_events (calendars w)) = true ->
  handler P {| name := "calendar"; arguments := Some args |} w
  = (Ok {| text := "No calendar events found"; isError := false |},
     logged [ProbeCalendar; RunGetAllEvents] w).
Proof.
  intros Eo Hguard Hacc Hall.
  unfold handler, handler_body, try_catch. simpl.
  unfold case_calendar. rewrite Hguard, Eo. simpl.
  unfold bind. rewrite getAllEvents_run, Hacc.
  unfold enumerable_events. by rewrite readable_all_unreadable.
Qed.

Lemma lookup_tools_ignore_operation (P : Platform) (tool : string) (args : Args)
    (v : JsValue) (w : World) :
  tool = "contacts" \/ tool = "notes" ->
  handler P {| name := tool; arguments := Some (<["operation" := v]> args) |} w
  = handler P {| name := tool; arguments := Some args |} w.
Proof.
  intros [-> | ->]; unfold handler, handler_body; simpl.
  - unfold case_contacts, isContactsArgs, has_key.
    by rewrite lookup_insert_ne.
  - unfold case_notes, isNotesArgs, has_key.
    by rewrite lookup_insert_ne.
Qed.

(** C1 (as the code has it). For every request and every state of the
    world, whatever the utility modules do, the tool handler returns a
    result and never rejects.  Every error that reaches the outer [try]
    gives [isError = true] with the message thrown: missing arguments, a
    failed argument guard, an operation string outside the [enum] of a
    tool that dispatches on operations (messages, reminders, calendar), a
    failed capability probe, an error of the notes module or of sending
    a message, a reminder list that raises while reminders are listed or
    searched; an error of
    the contacts module is caught by the inner [try] of that case and
    gives [isError = true] as well, and so does an unknown tool name.
    Not every failure below reaches the handler: when every calendar
    raises while events are listed, the script has swallowed the errors
    and the answer is [No calendar events found] with [isError = false];
    and the contacts and notes tools do not look at an [operation]
    argument, so whatever string is supplied there the answer is the one
    given without it. *)
Theorem C1_handler_never_raises (P : Platform) (request : Request) (w : World) :
  exists r w',
    handler P request w = (Ok r, w')
    /\ (forall e w1,
          handler_body P request w = (Throw e, w1) ->
          r = {| text := "Error: " +:+ e; isError := true |} /\ w' = w1)
    /\ (arguments request = None -> isError r = true)
    /\ (name request ∉ known_tools -> isError r = true)
    /\ (forall args,
          arguments request = Some args ->
          name request ∈ known_tools ->
          guard_of (name request) args = false ->
          r = {| text := "Error: Invalid arguments for " +:+ name request +:+ " tool";
                 isError := true |}
          /\ w' = w)
    /\ (forall args ops,
          arguments request = Some args ->
          operations_of (name request) = Some ops ->
          op_in ops (args !! "operation") = false ->
          isError r = true)
    /\ (forall args e w1,
          name request = "contacts" ->
          arguments request = Some args ->
          isContactsArgs args = true ->
          (if truthy (args !! "name")
           then error_of (contacts_findNumber P (arg_str (args !! "name")) w)
           else error_of (contacts_getAllNumbers P w)) = (Some e, w1) ->
          r = {| text := "Error accessing contacts: " +:+ e; isError := true |}
          /\ w' = w1)
    /\ (forall args e w1,
          name request = "notes" ->
          arguments request = Some args ->
          isNotesArgs args = true ->
          (if truthy (args !! "searchText")
           then error_of (notes_findNote P (arg_str (args !! "searchText")) w)
           else error_of (notes_getAllNotes P w)) = (Some e, w1) ->
          r = {| text := "Error: " +:+ e; isError := true |} /\ w' = w1)
    /\ (forall args e w1,
          name request = "messages" ->
          arguments request = Some args ->
          isMessagesArgs args = true ->
          args !! "operation" = Some (JStr "send") ->
          error_of (message_sendMessage P (arg_str (args !! "phoneNumber"))
                      (arg_str (args !! "message")) w) = (Some e, w1) ->
          r = {| text := "Error: " +:+ e; isError := true |} /\ w' = w1)
    /\ (forall d args,
          name request = tool_of d ->
          arguments request = Some args ->
          guard_of (tool_of d) args = true ->
          access d w = false ->
          isError r = true
          /\ includes (text r) (settings_path d) = true
          /\ w' = logged [probe_of d] w)
    /\ (forall args,
          name request = "reminders" ->
          arguments request = Some args ->
          isRemindersArgs args = true ->
          op_in ["list"; "find"] (args !! "operation") = true ->
          reminders_access w = true ->
          existsb is_unreadable (reminder_lists w) = true ->
          isError r = true /\ startsWith "Error: " (text r) = true)
    /\ (forall args,
          name request = "calendar" ->
          arguments request = Some args ->
          args !! "operation" = Some (JStr "list") ->
          isCalendarArgs args = true ->
          calendar_access w = true ->
          forallb is_unreadable (map cal_events (calendars w)) = true ->
          r = {| text := "No calendar events found"; isError := false |})
    /\ (forall args v,
          name request = "contacts" \/ name request = "notes" ->
          arguments request = Some args ->
          handler P {| name := name request;
                       arguments := Some (<["operation" := v]> args) |} w
          = (Ok r, w')).
Proof.
  destruct (handler_returns P request w) as (r & w' & Hrun & Hthrow).
  exists r, w'. split; [done|]. split; [done|].
  destruct request as [tool [args|]]; simpl in *.
  - assert (Hbad : forall a, Some args = Some a -> tool ∈ known_tools ->
                     guard_of tool a = false ->
                     r = {| text := "Error: Invalid arguments for " +:+ tool +:+ " tool";
                            isError := true |} /\ w' = w).
    { intros a [= <-] Htool Hguard.
      by apply Hthrow, guard_false_throws. }
    split; [done|]. split; [|split; [done|split; [|split; [|split; [|split;
      [|split; [|split; [|split]]]]]]]].
    + intros Hunknown.
      assert (Hne : forall t, t ∈ known_tools -> String.eqb tool t = false).
      { intros t Ht. apply String.eqb_neq. by intros ->. }
      unfold handler, try_catch, handler_body in Hrun. simpl in Hrun.
      rewrite (Hne "contacts"), (Hne "notes"), (Hne "messages"),
        (Hne "reminders"), (Hne "calendar") in Hrun
        by (unfold known_tools; in_list).
      by injection Hrun as <- <-.
    + intros a ops Ha Hops Hin.
      assert (Htool : tool ∈ known_tools).
      { unfold operations_of in Hops. unfold known_tools.
        destruct (String.eqb tool "messages") eqn:E1;
          [apply String.eqb_eq in E1 as ->; in_list|].
        destruct (String.eqb tool "reminders") eqn:E2;
          [apply String.eqb_eq in E2 as ->; in_list|].
        destruct (String.eqb tool "calendar") eqn:E3; [|done].
        apply String.eqb_eq in E3 as ->; in_list. }
      destruct (Hbad a Ha Htool (op_in_false_guard _ _ _ Hops Hin)) as [-> _].
      done.
    + intros a e w1 -> [= <-] Hguard Herr.
      rewrite (handler_contacts_error P args w w1 e Hguard Herr) in Hrun.
      by injection Hrun as <- <-.
    + intros a e w1 -> [= <-] Hguard Herr.
      rewrite (handler_notes_error P args w w1 e Hguard Herr) in Hrun.
      by injection Hrun as <- <-.
    + intros a e w1 -> [= <-] Hguard Eo Herr.
      rewrite (handler_send_error P args w w1 e Hguard Eo Herr) in Hrun.
      by injection Hrun as <- <-.
    + intros d a -> [= <-] Hguard Hacc.
      assert (Hden : exists r0,
                 handler P {| name := tool_of d; arguments := Some args |} w
                 = (Ok r0, logged [probe_of d] w)
                 /\ isError r0 = true
                 /\ includes (text r0) (settings_path d) = true).
      { destruct d; simpl in *;
          [by apply handler_reminders_denied|by apply handler_calendar_denied]. }
      destruct Hden as (r0 & Hrun0 & Herr & Hpath).
      rewrite Hrun0 in Hrun. by injection Hrun as <- <-.
    + intros a -> [= <-] Hguard Hop Hacc Hraise.
      destruct (handler_reminders_list_raises P args w Hguard Hop Hacc Hraise)
        as (r0 & w0 & Hrun0 & Herr & Htext).
      rewrite Hrun0 in Hrun. by injection Hrun as <- <-.
    + intros a -> [= <-] Eo Hguard Hacc Hall.
      rewrite (handler_calendars_all_raise P args w Eo Hguard Hacc Hall) in Hrun.
      by injection Hrun as <- <-.
    + intros a v Htool [= <-].
      by rewrite lookup_tools_ignore_operation.
  - destruct (Hthrow "No arguments provided" w eq_refl) as [-> _].
    repeat split; intros; discriminate || done.
Qed.

(** Against C1 as worded ("any error raised below the dispatch boundary
    ... as well as ... an unknown operation string for a known tool,
    results in isError: true"): with every calendar raising, a request to
    list the events is answered [No calendar events found] with
    [isError = false]; and a contacts or notes request whose operation is
    the unknown string [delete] is answered like one without it, with
    [isError = false]. *)
Lemma C1_swallowed_errors_not_reported :
  calendar_access Demo.broken = true
  /\ forallb is_unreadable (map cal_events (calendars Demo.broken)) = true
  /\ fst (handler Demo.platform
            (Demo.request "calendar" [("operation", JStr "list")]) Demo.broken)
     = Ok {| text := "No calendar events found"; isError := false |}
  /\ fst (handler Demo.platform
            (Demo.request "contacts" [("operation", JStr "delete")]) Demo.home)
     = Ok {| text := "No contacts found in the address book. Please make sure you have granted access to Contacts.";
             isError := false |}
  /\ fst (handler Demo.platform
            (Demo.request "notes" [("operation", JStr "delete")]) Demo.home)
     = Ok {| text := EmptyString; isError := false |}.
Proof. vm_compute. repeat split. Qed.

(** ** Searching the calendars *)

Lemma find_in_calendars_concat searchText s e cals :
  find_in_calendars searchText s e cals
  = concat (map (search_calendar searchText s e) (readable (map cal_events cals))).
Proof. unfold find_in_calendars. by rewrite for_calendars_concat. Qed.

Lemma whose_dates_spec s e ev :
  whose_dates s e ev = true <-> (s <= e_startDate ev /\ e_endDate ev <= e)%Z.
Proof. unfold whose_dates. rewrite andb_true_iff, !Z.leb_le. tauto. Qed.

Lemma text_filter_spec searchText ev :
  text_filter searchText ev = true
  <-> includes (e_summary ev) searchText = true
      \/ includes (or_empty (e_description ev)) searchText = true
      \/ includes (or_empty (e_location ev)) searchText = true.
Proof. unfold text_filter. rewrite !orb_true_iff. tauto. Qed.

(** C6 (as the code has it). For every calendar find with both startDate
    and endDate supplied as valid dates and calendar access granted, the
    search keeps, per readable calendar, the events lying inside the
    inclusive range (event start >= startDate and event end <= endDate),
    and only then applies the substring text filter on title, description
    and location to these date-filtered candidates; the result is their
    concatenation in calendar order and no broader search follows. *)
Theorem C6_date_range_then_text (P : Platform) (searchText : string) (s e : Z)
    (w : World) :
  calendar_access w = true ->
  findEvents P searchText (Some (ValidDate s)) (Some (ValidDate e)) w
  = (Ok (map (to_event P)
           (concat (map (fun evs =>
                           List.filter (text_filter searchText)
                             (List.filter (whose_dates s e) evs))
                        (readable (map cal_events (calendars w)))))),
     logged [ProbeCalendar; RunFindEvents searchText (Some s) (Some e)] w)
  /\ (forall ev, whose_dates s e ev = true
                 <-> (s <= e_startDate ev /\ e_endDate ev <= e)%Z)
  /\ (forall ev, text_filter searchText ev = true
                 <-> includes (e_summary ev) searchText = true
                     \/ includes (or_empty (e_description ev)) searchText = true
                     \/ includes (or_empty (e_location ev)) searchText = true).
Proof.
  intros Hacc. split; [|split].
  - pose proof (findEvents_run P searchText (Some s) (Some e) w) as Hrun.
    simpl in Hrun. rewrite Hrun, Hacc. rewrite andb_false_r. simpl.
    by rewrite find_in_calendars_concat.
  - apply whose_dates_spec.
  - apply text_filter_spec.
Qed.

Lemma C6_date_range_then_text_witness :
  calendar_access Demo.home = true
  /\ findEvents Demo.platform "e" (Some (ValidDate 10)) (Some (ValidDate 20)) Demo.home
     = (Ok [to_event Demo.platform Demo.dentist],
        logged [ProbeCalendar; RunFindEvents "e" (Some 10%Z) (Some 20%Z)] Demo.home).
Proof.
  split; [reflexivity|].
  exact (proj1 (C6_date_range_then_text Demo.platform "e" 10 20 Demo.home eq_refl)).
Defined.

(** Against C6 as worded.  An event from 5 to 15 shares the span 10..15 with the range 10..20 and
    carries the searched title, so the search as the claim words it
    returns it; [findEvents] returns nothing, because the event starts
    before the range does. *)
Lemma C6_intersecting_event_not_found :
  intersects 10 20 Demo.standup = true
  /\ spec_ranged_search "Standup" 10 20 Demo.home = [Demo.standup]
  /\ fst (findEvents Demo.platform "Standup" (Some (ValidDate 10))
            (Some (ValidDate 20)) Demo.home)
     = Ok []
  /\ fst (findEvents Demo.platform "Standup" (Some (ValidDate 10))
            (Some (ValidDate 20)) Demo.home)
     <> Ok (map (to_event Demo.platform)
              (spec_ranged_search "Standup" 10 20 Demo.home)).
Proof. vm_compute. repeat split; discriminate. Qed.

(** C10. For every calendar find where exactly one of startDate and
    endDate is supplied (a valid date, calendar access granted), the
    search applies no date clause: every event of every readable calendar
    goes through the text filter, exactly as in the strict search without
    dates, and the supplied bound only appears in the script's arguments. *)
Theorem C10_single_bound_is_ignored (P : Platform) (searchText : string) (d : Z)
    (w : World) :
  calendar_access w = true ->
  let unfiltered :=
    concat (map (List.filter (text_filter searchText))
                (readable (map cal_events (calendars w)))) in
  findEvents P searchText (Some (ValidDate d)) None w
  = (Ok (map (to_event P) unfiltered),
     logged [ProbeCalendar; RunFindEvents searchText (Some d) None] w)
  /\ findEvents P searchText None (Some (ValidDate d)) w
     = (Ok (map (to_event P) unfiltered),
        logged [ProbeCalendar; RunFindEvents searchText None (Some d)] w)
  /\ find_in_calendars searchText (Some d) None (calendars w)
     = find_in_calendars searchText None None (calendars w)
  /\ find_in_calendars searchText None (Some d) (calendars w)
     = find_in_calendars searchText None None (calendars w).
Proof.
  intros Hacc unfiltered. split; [|split; [|split]].
  - pose proof (findEvents_run P searchText (Some d) None w) as Hrun.
    simpl in Hrun. rewrite Hrun, Hacc. rewrite andb_false_r. simpl.
    by rewrite find_in_calendars_concat.
  - pose proof (findEvents_run P searchText None (Some d) w) as Hrun.
    simpl in Hrun. rewrite Hrun, Hacc. rewrite andb_false_r. simpl.
    by rewrite find_in_calendars_concat.
  - by rewrite !find_in_calendars_concat.
  - by rewrite !find_in_calendars_concat.
Qed.

Lemma C10_single_bound_is_ignored_witness :
  calendar_access Demo.home = true
  /\ findEvents Demo.platform "Standup" (Some (ValidDate 10)) None Demo.home
     = (Ok [to_event Demo.platform Demo.standup],
        logged [ProbeCalendar; RunFindEvents "Standup" (Some 10%Z) None] Demo.home).
Proof.
  split; [reflexivity|].
  exact (proj1 (C10_single_bound_is_ignored Demo.platform "Standup" 10 Demo.home
                  eq_refl)).
Defined.

(** ** Aggregation over the sources *)






(** The Reminders scripts have no per-list [try]: any list that raises
    makes the whole listing fail. *)
Lemma reminders_any_list_raises (P : Platform) (w : World) :
  reminders_access w = true ->
  existsb is_unreadable (reminder_lists w) = true ->
  exists msg,
    fst (getAllReminders P w) = Throw ("Error accessing reminders: " +:+ msg)
    /\ Unreadable msg ∈ reminder_lists w.
Proof.
  intros Hacc Hbad. rewrite getAllReminders_run, Hacc.
  destruct (for_lists_throws (fun items : list RawReminder => items) []
              (reminder_lists w) Hbad) as (msg & -> & Hin).
  by exists msg.
Qed.

(** For instance, with the second of two lists raising, although the
    first is readable. *)
Lemma reminders_one_list_raises :
  let w := set_reminder_lists
             [Readable [Demo.rent]; Unreadable "list 2 failed"] Demo.home in
  fst (getAllReminders Demo.platform w)
  = Throw "Error accessing reminders: list 2 failed"
  /\ fst (findReminders Demo.platform "rent" w)
     = Throw "Error finding reminders: list 2 failed".
Proof. vm_compute. by split. Qed.

(** ** The broader search *)

Lemma findEvents_cases (P : Platform) searchText (s e : option Z) w :
  calendar_access w = true ->
  (strict_events P searchText s e w = [] /\ s = None /\ e = None
   /\ findEvents P searchText (ValidDate <$> s) (ValidDate <$> e) w
      = (Ok (fallback_events P searchText w),
         logged [ProbeCalendar; RunFindEvents searchText None None;
                 ProbeCalendar; RunGetAllEvents] w))
  \/ (~ (strict_events P searchText s e w = [] /\ s = None /\ e = None)
      /\ findEvents P searchText (ValidDate <$> s) (ValidDate <$> e) w
         = (Ok (strict_events P searchText s e w),
            logged [ProbeCalendar; RunFindEvents searchText s e] w)).
Proof.
  intros Hacc. rewrite findEvents_run, Hacc. simpl.
  fold (strict_events P searchText s e w).
  destruct (strict_events P searchText s e w) as [|x strict] eqn:Hstrict;
    destruct s as [s|], e as [e|]; simpl;
    first [ by left | right; split; [by intros (? & ? & ?)|done] ].
Qed.


Lemma reminder_matches_spec (P : Platform) searchText x :
  reminder_matches P searchText x = true
  <-> includes (toLowerCase P (title x)) (toLowerCase P searchText) = true
      \/ includes (toLowerCase P (notes x)) (toLowerCase P searchText) = true.
Proof. unfold reminder_matches. by rewrite orb_true_iff. Qed.










(** ** Completing a reminder *)

Lemma mark_first_none i items :
  (forall r, In r items -> r_id r <> i) -> mark_first i items = None.
Proof.
  induction items as [|r items IH]; simpl; [done|]. intros Hno.
  destruct (String.eqb (r_id r) i) eqn:E.
  - apply String.eqb_eq in E. exfalso. apply (Hno r); auto.
  - rewrite IH; [done|]. intros x Hx. apply Hno. auto.
Qed.

Lemma mark_first_some i items items' :
  mark_first i items = Some items' ->
  exists pre r post,
    items = pre ++ r :: post
    /\ (forall x, In x pre -> r_id x <> i)
    /\ r_id r = i
    /\ items' = pre ++ set_completed r :: post.
Proof.
  revert items'. induction items as [|r items IH]; simpl; [done|]. intros items'.
  destruct (String.eqb (r_id r) i) eqn:E.
  - intros [= <-]. apply String.eqb_eq in E. by exists [], r, items.
  - destruct (mark_first i items) as [rest'|]; simpl; [|done]. intros [= <-].
    destruct (IH rest' eq_refl) as (pre & t & post & -> & Hpre & Ht & ->).
    exists (r :: pre), t, post. repeat split; try done.
    intros x [<-|Hx]; [by apply String.eqb_neq|by apply Hpre].
Qed.

Lemma mark_first_found i items :
  (exists r, In r items /\ r_id r = i) -> exists items', mark_first i items = Some items'.
Proof.
  intros (r & Hin & Hid).
  destruct (mark_first i items) as [items'|] eqn:E; [by eexists|].
  exfalso. revert Hin E. induction items as [|x items IH]; simpl; [done|].
  destruct (String.eqb (r_id x) i) eqn:Ex; [done|].
  intros [->|Hin].
  - apply String.eqb_neq in Ex. done.
  - destruct (mark_first i items); [done|]. auto.
Qed.

Lemma mark_first_again i items items' :
  mark_first i items = Some items' -> mark_first i items' = Some items'.
Proof.
  revert items'. induction items as [|r items IH]; simpl; [done|]. intros items'.
  destruct (String.eqb (r_id r) i) eqn:E.
  - intros [= <-]. simpl. by rewrite E.
  - destruct (mark_first i items) as [rest'|]; simpl; [|done]. intros [= <-].
    simpl. rewrite E. by rewrite (IH rest' eq_refl).
Qed.

Lemma complete_in_lists_absent i srcs :
  (forall r, In r (concat (readable srcs)) -> r_id r <> i) ->
  forall srcs', complete_in_lists i srcs <> Ok (Some srcs').
Proof.
  induction srcs as [|[items|msg] srcs IH]; simpl; intros Hno srcs'; try done.
  rewrite mark_first_none.
  - specialize (IH (fun r Hr => Hno r (in_or_app _ _ _ (or_intror Hr)))).
    destruct (complete_in_lists i srcs) as [[rest'|]|]; try done.
    by destruct (IH rest').
  - intros r Hr. apply Hno. apply in_or_app. by left.
Qed.

Lemma complete_in_lists_again i srcs srcs' :
  complete_in_lists i srcs = Ok (Some srcs') ->
  complete_in_lists i srcs' = Ok (Some srcs').
Proof.
  revert srcs'. induction srcs as [|[items|msg] srcs IH]; simpl; intros srcs'; try done.
  destruct (mark_first i items) as [items'|] eqn:E.
  - intros [= <-]. simpl. by rewrite (mark_first_again _ _ _ E).
  - destruct (complete_in_lists i srcs) as [[rest'|]|]; try done.
    intros [= <-]. simpl. rewrite E. by rewrite (IH rest' eq_refl).
Qed.

Lemma complete_in_lists_readable i ls :
  (exists r, In r (concat ls) /\ r_id r = i) ->
  exists ls' pre r post,
    complete_in_lists i (map Readable ls) = Ok (Some (map Readable ls'))
    /\ map length ls' = map length ls
    /\ concat ls = pre ++ r :: post
    /\ (forall x, In x pre -> r_id x <> i)
    /\ r_id r = i
    /\ concat ls' = pre ++ set_completed r :: post.
Proof.
  induction ls as [|items ls IH]; simpl.
  - by intros (r & [] & _).
  - intros (r & Hin & Hid).
    destruct (mark_first i items) as [items'|] eqn:E.
    + destruct (mark_first_some _ _ _ E) as (pre & t & post & -> & Hpre & Ht & ->).
      exists ((pre ++ set_completed t :: post) :: ls), pre, t, (post ++ concat ls).
      repeat split; try done.
      * simpl. f_equal. rewrite !length_app. done.
      * by rewrite <- app_assoc.
      * simpl. by rewrite <- app_assoc.
    + assert (Hno : forall x, In x items -> r_id x <> i).
      { intros x Hx Hxi.
        destruct (mark_first_found i items) as [? Hf]; [eauto|congruence]. }
      apply in_app_or in Hin as [Hin|Hin]; [by destruct (Hno r Hin)|].
      destruct IH as (ls' & pre & t & post & -> & Hlen & Hcat & Hpre & Ht & Hcat');
        [eauto|].
      exists (items :: ls'), (items ++ pre), t, post.
      repeat split; try done.
      * simpl. by rewrite Hlen.
      * rewrite Hcat. by rewrite <- app_assoc.
      * intros x [Hx|Hx]%in_app_or; [by apply Hno|by apply Hpre].
      * simpl. rewrite Hcat'. by rewrite <- app_assoc.
Qed.

Lemma handler_complete (P : Platform) (args : Args) (i : string) (w : World) :
  isRemindersArgs args = true ->
  args !! "operation" = Some (JStr "complete") ->
  args !! "id" = Some (JStr i) ->
  handler P {| name := "reminders"; arguments := Some args |} w
  = match completeReminder P i w with
    | (Ok success, w') =>
        (Ok {| text :=
                 if success then "Reminder marked as completed"
                 else "Failed to complete reminder. ID " +:+ i +:+ " not found.";
               isError := negb success |}, w')
    | (Throw e, w') => (Ok {| text := "Error: " +:+ e; isError := true |}, w')
    end.
Proof.
  intros Hguard Eo Ei.
  unfold handler, handler_body, try_catch. simpl.
  unfold case_reminders. rewrite Hguard. simpl. rewrite Eo. simpl.
  destruct (isRemindersArgs_inv args Hguard)
    as [Eo'|[[Eo' _]|[[Eo' _]|[_ Ha]]]]; try congruence.
  rewrite (text_arg_truthy _ _ Ha). simpl. rewrite Ei. simpl.
  unfold bind. by destruct (completeReminder P i w) as [[[]|e] w'].
Qed.

Lemma handler_reminders_rejected (P : Platform) (args : Args) (w : World) :
  isRemindersArgs args = false ->
  exists res,
    handler P {| name := "reminders"; arguments := Some args |} w = (Ok res, w)
    /\ isError res = true.
Proof.
  intros Hguard. unfold handler, try_catch.
  rewrite (guard_false_throws P "reminders" args w); [by eexists| |done].
  unfold known_tools. in_list.
Qed.

(** C8. For the reminders complete operation with id [i]: when no reminder
    of any list has that id, the handler returns a result with
    [isError = true] and the lists are left exactly as they were.  When a
    reminder has that id (valid arguments, access granted, lists
    readable), the handler answers "Reminder marked as completed" with
    [isError = false]; the first reminder with the id, in list order, now
    has [completed = true] (so a reminder that was not completed goes from
    false to true) and every other reminder is untouched; a second
    complete with the same id again returns [isError = false] and leaves
    the lists in that same state. *)
Theorem C8_complete_by_id (P : Platform) (args : Args) (i : string) (w : World) :
  args !! "operation" = Some (JStr "complete") ->
  args !! "id" = Some (JStr i) ->
  let request := {| name := "reminders"; arguments := Some args |} in
  ((forall r, In r (enumerable_reminders w) -> r_id r <> i) ->
   exists res w',
     handler P request w = (Ok res, w')
     /\ isError res = true
     /\ reminder_lists w' = reminder_lists w)
  /\ (forall ls,
        isRemindersArgs args = true ->
        reminders_access w = true ->
        reminder_lists w = map Readable ls ->
        (exists r, In r (concat ls) /\ r_id r = i) ->
        exists w1 w2 ls' pre r post,
          handler P request w
          = (Ok {| text := "Reminder marked as completed"; isError := false |}, w1)
          /\ reminder_lists w1 = map Readable ls'
          /\ map length ls' = map length ls
          /\ concat ls = pre ++ r :: post
          /\ (forall x, In x pre -> r_id x <> i)
          /\ r_id r = i
          /\ concat ls' = pre ++ set_completed r :: post
          /\ r_completed (set_completed r) = true
          /\ handler P request w1
             = (Ok {| text := "Reminder marked as completed"; isError := false |}, w2)
          /\ reminder_lists w2 = reminder_lists w1).
Proof.
  intros Eo Ei request. split.
  - intros Hno.
    destruct (isRemindersArgs args) eqn:Hguard.
    + unfold request. rewrite (handler_complete P args i w Hguard Eo Ei).
      rewrite completeReminder_run.
      destruct (reminders_access w); [|by eexists _, _].
      pose proof (complete_in_lists_absent i (reminder_lists w) Hno) as Habsent.
      destruct (complete_in_lists i (reminder_lists w)) as [[lists'|]|msg].
      * by destruct (Habsent lists').
      * by eexists _, _.
      * by eexists _, _.
    + destruct (handler_reminders_rejected P args w Hguard) as (res & Hrun & Herr).
      by exists res, w.
  - intros ls Hguard Hacc Hls Hex.
    destruct (complete_in_lists_readable i ls Hex)
      as (ls' & pre & r & post & Hrun & Hlen & Hcat & Hpre & Hr & Hcat').
    exists (set_reminder_lists (map Readable ls')
              (logged [ProbeReminders; RunCompleteReminder i] w)).
    exists (set_reminder_lists (map Readable ls')
              (logged [ProbeReminders; RunCompleteReminder i]
                 (set_reminder_lists (map Readable ls')
                    (logged [ProbeReminders; RunCompleteReminder i] w)))).
    exists ls', pre, r, post.
    unfold request. rewrite !(handler_complete P args i _ Hguard Eo Ei).
    rewrite !completeReminder_run. simpl. rewrite Hacc, Hls, Hrun.
    rewrite (complete_in_lists_again _ _ _ Hrun).
    repeat split; done.
Qed.

Lemma C8_complete_by_id_witness :
  let args : Args := list_to_map [("operation", JStr "complete"); ("id", JStr "r1")] in
  args !! "operation" = Some (JStr "complete")
  /\ args !! "id" = Some (JStr "r1")
  /\ isRemindersArgs args = true
  /\ reminders_access Demo.home = true
  /\ exists w1,
       handler Demo.platform {| name := "reminders"; arguments := Some args |} Demo.home
       = (Ok {| text := "Reminder marked as completed"; isError := false |}, w1).
Proof.
  intros args.
  assert (Ho : args !! "operation" = Some (JStr "complete")) by (vm_compute; reflexivity).
  assert (Hi : args !! "id" = Some (JStr "r1")) by (vm_compute; reflexivity).
  assert (Hg : isRemindersArgs args = true) by (vm_compute; reflexivity).
  assert (Hex : exists r, In r (concat [[Demo.rent]; [Demo.call_mom]]) /\ r_id r = "r1").
  { exists Demo.call_mom. split; [simpl; tauto|reflexivity]. }
  split; [exact Ho|]. split; [exact Hi|]. split; [exact Hg|].
  split; [reflexivity|].
  destruct (proj2 (C8_complete_by_id Demo.platform args "r1" Demo.home Ho Hi)
              [[Demo.rent]; [Demo.call_mom]] Hg eq_refl eq_refl Hex)
    as (w1 & _ & _ & _ & _ & _ & Hrun & _).
  exists w1. exact Hrun.
Defined.

(** ** Creating a reminder and finding it again *)

Lemma filter_all_false {A} (p : A -> bool) (l : list A) :
  (forall y, In y l -> p y = false) -> List.filter p l = [].
Proof.
  induction l as [|a l IH]; simpl; [done|]. intros Hno.
  rewrite (Hno a) by auto. apply IH. auto.
Qed.

Lemma filter_after_push {A} (p : A -> bool) (ls : list (list A)) d items x :
  ls !! d = Some items ->
  (forall y, In y (concat ls) -> p y = false) ->
  List.filter p (concat (<[d := items ++ [x]]> ls)) = if p x then [x] else [].
Proof.
  revert d. induction ls as [|l ls IH]; intros [|d]; simpl; try done.
  - intros [= ->] Hno. rewrite !List.filter_app. simpl.
    rewrite (filter_all_false p items), (filter_all_false p (concat ls)).
    + by destruct (p x).
    + intros y Hy. apply Hno. apply in_or_app. by right.
    + intros y Hy. apply Hno. apply in_or_app. by left.
  - intros Hd Hno. rewrite List.filter_app.
    rewrite (filter_all_false p l).
    + apply IH; [done|]. intros y Hy. apply Hno. apply in_or_app. by right.
    + intros y Hy. apply Hno. apply in_or_app. by left.
Qed.

Lemma push_to_readable_list {A} (ls : list (list A)) d items (x : A) :
  ls !! d = Some items ->
  map Readable ls !! d = Some (Readable items)
  /\ <[d := Readable (items ++ [x])]> (map Readable ls)
     = map Readable (<[d := items ++ [x]]> ls).
Proof.
  revert d. induction ls as [|l ls IH]; intros [|d]; simpl; try done.
  - by intros [= ->].
  - intros Hd. destruct (IH d Hd) as [Hl Hi]. split; [done|]. by rewrite Hi.
Qed.

(** C9 (as the code has it). With reminders access granted, every list
    readable and the default list among them: creating a reminder that the
    search text matches (the application's own query finds the text in
    the title or the notes, or the lower-cased title or notes contains
    the lower-cased text), when no reminder already stored matches that
    text in either way, and then at once finding by that text, returns
    exactly one item: the created reminder, with the title
    and notes given and [isCompleted = false].  The reminder is stored
    with the instant given as its due date; the [dueDate] of the item
    found is no date at all when none was given, and otherwise the text
    [Date.toString()] renders for that instant, not the value the caller
    supplied. *)
Theorem C9_create_then_find (P : Platform) (title0 notes0 searchText : string)
    (due : option Z) (ls : list (list RawReminder)) (w : World) :
  reminders_access w = true ->
  reminder_lists w = map Readable ls ->
  default_list w < length ls ->
  (whose_contains P (Some title0) searchText = true
   \/ whose_contains P (Some notes0) searchText = true
   \/ includes (toLowerCase P title0) (toLowerCase P searchText) = true
   \/ includes (toLowerCase P notes0) (toLowerCase P searchText) = true) ->
  (forall r, In r (concat ls) ->
             whose_contains P (Some (r_name r)) searchText = false
             /\ whose_contains P (r_body r) searchText = false
             /\ includes (toLowerCase P (r_name r)) (toLowerCase P searchText) = false
             /\ includes (toLowerCase P (or_empty (r_body r)))
                  (toLowerCase P searchText) = false) ->
  exists created w1 found w2 stored,
    createReminder P title0 notes0 (ValidDate <$> due) w = (Ok (Some created), w1)
    /\ findReminders P searchText w1 = (Ok [found], w2)
    /\ found = created
    /\ title found = title0
    /\ notes found = notes0
    /\ isCompleted found = false
    /\ In stored (enumerable_reminders w1)
    /\ found = to_reminder P stored
    /\ r_dueDate stored = due
    /\ dueDate found = match due with
                       | None => None
                       | Some ms => Some (date_toString P ms)
                       end.
Proof.
  intros Hacc Hls Hdef Htext Hnone.
  assert (Hother : forall r, In r (concat ls) ->
                     whose_name_or_body P searchText r = false
                     /\ reminder_matches P searchText (to_reminder P r) = false).
  { intros r Hr. destruct (Hnone r Hr) as (Hn & Hb & Ht & Hno).
    unfold whose_name_or_body, reminder_matches. simpl.
    by rewrite Hn, Hb, Ht, Hno. }
  destruct (lookup_lt_is_Some_2 ls (default_list w) Hdef) as [items Hitems].
  remember (fresh_reminder_id P (reminder_lists w)) as fid eqn:Hfid.
  set (reminder := {| r_id := fid; r_name := title0; r_body := Some notes0;
                      r_dueDate := due; r_completed := false |}).
  destruct (push_to_readable_list ls _ items reminder Hitems) as [Hlook Hpush].
  pose proof (createReminder_run P title0 notes0 due w) as Hcreate.
  rewrite Hacc in Hcreate. simpl in Hcreate. rewrite <- Hfid in Hcreate.
  fold reminder in Hcreate. rewrite Hls, Hlook, Hpush in Hcreate.
  assert (Hmatch : whose_name_or_body P searchText reminder = true
                   \/ reminder_matches P searchText (to_reminder P reminder) = true).
  { unfold whose_name_or_body, reminder_matches. simpl.
    rewrite !orb_true_iff. tauto. }
  assert (Hfind : exists w2,
             findReminders P searchText
               (set_reminder_lists
                  (map Readable (<[default_list w := items ++ [reminder]]> ls))
                  (logged [ProbeReminders; RunCreateReminder title0 notes0 due] w))
             = (Ok [to_reminder P reminder], w2)).
  { rewrite findReminders_run. unfold enumerable_reminders. simpl.
    rewrite Hacc, for_lists_readable, readable_map_Readable. simpl.
    rewrite concat_filter_map, filter_map_swap.
    rewrite !(filter_after_push _ ls _ items reminder Hitems)
      by (intros y Hy; by destruct (Hother y Hy)).
    destruct (whose_name_or_body P searchText reminder); [by eexists|].
    destruct Hmatch as [Hmatch|Hmatch]; [done|]. rewrite Hmatch. by eexists. }
  destruct Hfind as [w2 Hfind].
  eexists (to_reminder P reminder), _, (to_reminder P reminder), w2, reminder.
  split; [exact Hcreate|]. split; [exact Hfind|].
  do 4 (split; [reflexivity|]).
  split.
  { unfold enumerable_reminders. simpl. rewrite readable_map_Readable.
    apply in_concat. exists (items ++ [reminder]). split.
    - apply list_elem_of_In, list_elem_of_lookup.
      exists (default_list w). apply list_lookup_insert_eq.
      by apply lookup_lt_is_Some_1.
    - apply in_or_app. right. by left. }
  do 2 (split; [reflexivity|]). by destruct due.
Qed.

Lemma C9_create_then_find_witness :
  reminders_access Demo.home = true
  /\ default_list Demo.home < 2
  /\ includes (toLowerCase Demo.platform "Buy milk")
       (toLowerCase Demo.platform "MILK") = true
  /\ exists created w1 found w2 stored,
       createReminder Demo.platform "Buy milk" "2%" (Some (ValidDate 1767261600500))
         Demo.home
       = (Ok (Some created), w1)
       /\ findReminders Demo.platform "MILK" w1 = (Ok [found], w2)
       /\ found = created
       /\ title found = "Buy milk"
       /\ notes found = "2%"
       /\ isCompleted found = false
       /\ In stored (enumerable_reminders w1)
       /\ found = to_reminder Demo.platform stored
       /\ r_dueDate stored = Some 1767261600500%Z
       /\ dueDate found
          = Some (date_toString Demo.platform 1767261600500).
Proof.
  split; [reflexivity|]. split; [simpl; lia|]. split; [reflexivity|].
  apply (C9_create_then_find Demo.platform "Buy milk" "2%" "MILK"
           (Some 1767261600500%Z) [[Demo.rent]; [Demo.call_mom]] Demo.home).
  - reflexivity.
  - reflexivity.
  - simpl; lia.
  - right. right. left. reflexivity.
  - intros r [<-|[<-|[]]]; repeat split; reflexivity.
Defined.

(** Against C9 as worded ("dueDate equals the created input"): a reminder
    created with the due date the request text
    [2026-01-01T10:00:00.500Z] denotes is found with the [dueDate]
    [Thu Jan 01 2026 10:00:00 GMT+0000 (Coordinated Universal Time)],
    which is neither that text nor a rendering of that instant alone: the
    same reminder created half a second earlier is found with the same
    [dueDate]. *)
Lemma C9_due_date_is_not_the_input :
  date_parse Demo.platform "2026-01-01T10:00:00.500Z" = ValidDate 1767261600500
  /\ date_parse Demo.platform "2026-01-01T10:00:00.000Z" = ValidDate 1767261600000
  /\ exists created w1 found w2 created' w1' found' w2',
       createReminder Demo.platform "Buy milk" EmptyString
         (Some (date_parse Demo.platform "2026-01-01T10:00:00.500Z")) Demo.home
       = (Ok (Some created), w1)
       /\ findReminders Demo.platform "milk" w1 = (Ok [found], w2)
       /\ dueDate found
          = Some "Thu Jan 01 2026 10:00:00 GMT+0000 (Coordinated Universal Time)"
       /\ dueDate found <> Some "2026-01-01T10:00:00.500Z"
       /\ createReminder Demo.platform "Buy milk" EmptyString
            (Some (date_parse Demo.platform "2026-01-01T10:00:00.000Z")) Demo.home
          = (Ok (Some created'), w1')
       /\ findReminders Demo.platform "milk" w1' = (Ok [found'], w2')
       /\ dueDate found' = dueDate found.
Proof.
  split; [vm_compute; reflexivity|]. split; [vm_compute; reflexivity|].
  eexists _, _, _, _, _, _, _, _.
  split; [vm_compute; reflexivity|]. split; [vm_compute; reflexivity|].
  split; [vm_compute; reflexivity|]. split; [simpl; discriminate|].
  split; [vm_compute; reflexivity|]. split; [vm_compute; reflexivity|].
  vm_compute; reflexivity.
Qed.

(** ** Argument validation *)

Lemma type_ok_of_well_typed (t : string) (args : Args) (k : string) :
  negb (has_key args k) || is_type t (args !! k) = true ->
  type_ok t (args !! k) = true.
Proof.
  unfold has_key, type_ok. destruct (args !! k) as [v|]; simpl; [|done].
  intros ->. by rewrite andb_false_r.
Qed.

Lemma handler_guard_false (P : Platform) (tool : string) (args : Args) (w : World) :
  In tool known_tools ->
  guard_of tool args = false ->
  handler P {| name := tool; arguments := Some args |} w
  = (Ok {| text := "Error: Invalid arguments for " +:+ tool +:+ " tool";
           isError := true |}, w).
Proof.
  intros Htool Hguard. unfold handler, try_catch.
  rewrite guard_false_throws; [done| |done]. by apply list_elem_of_In.
Qed.

Ltac guard_truthy :=
  repeat match goal with
         | |- context [truthy (?a !! ?k)] => destruct (truthy (a !! k))
         end.

Lemma missing_required_field_rejected (tool : string) (op : option string)
    (required : list string) (args : Args) (f : string) :
  In (tool, op, required) spec_required_fields ->
  operation_is op args ->
  In f required ->
  args !! f = None ->
  guard_of tool args = false.
Proof.
  intros Hrow Hop Hf Hnone. simpl in Hrow.
  repeat (destruct Hrow as [[= <- <- <-]|Hrow];
          [simpl in Hf, Hop;
           repeat (destruct Hf as [<-|Hf]; [|]);
           try done;
           unfold guard_of; simpl;
           unfold isMessagesArgs, isRemindersArgs, isCalendarArgs;
           rewrite ?Hop; simpl; rewrite Hnone; simpl;
           by guard_truthy |]).
  done.
Qed.

Lemma supplied_fields_accepted (tool : string) (op : option string)
    (required : list string) (args : Args) :
  In (tool, op, required) spec_required_fields ->
  operation_is op args ->
  well_typed tool args = true ->
  (forall f, In f required -> truthy (args !! f) = true) ->
  guard_of tool args = true.
Proof.
  intros Hrow Hop Htyped Hreq. simpl in Hrow.
  repeat (destruct Hrow as [[= <- <- <-]|Hrow];
          [unfold well_typed in Htyped; simpl in Htyped, Hop;
           rewrite ?andb_true_iff in Htyped;
           unfold guard_of; simpl;
           unfold isContactsArgs, isNotesArgs, isMessagesArgs, isRemindersArgs,
             isCalendarArgs;
           rewrite ?Hop; simpl;
           rewrite ?Hreq by (simpl; tauto); simpl;
           rewrite ?type_ok_of_well_typed by tauto;
           tauto || done |]).
  done.
Qed.

(** C2 (as the code has it). For every row of the required-field table:
    a request for that operation that omits one of the row's required
    fields fails the tool's guard, and the handler answers, before any
    call to the applications, with [isError = true] and the text
    "Error: Invalid arguments for <tool> tool", which names the tool and
    not the field; a request that supplies every required field with a
    truthy value (a non-empty string, a non-zero number) and whose
    type-checked fields are each absent or of the expected type passes the
    guard. *)
Theorem C2_required_fields (tool : string) (op : option string)
    (required : list string) (args : Args) :
  In (tool, op, required) spec_required_fields ->
  operation_is op args ->
  (forall f, In f required -> args !! f = None ->
     guard_of tool args = false
     /\ forall P w,
          handler P {| name := tool; arguments := Some args |} w
          = (Ok {| text := "Error: Invalid arguments for " +:+ tool +:+ " tool";
                   isError := true |}, w))
  /\ (well_typed tool args = true ->
      (forall f, In f required -> truthy (args !! f) = true) ->
      guard_of tool args = true).
Proof.
  intros Hrow Hop. split.
  - intros f Hf Hnone.
    assert (Hguard := missing_required_field_rejected _ _ _ _ _ Hrow Hop Hf Hnone).
    split; [done|]. intros P w. apply handler_guard_false; [|done].
    simpl in Hrow. unfold known_tools.
    repeat (destruct Hrow as [[= <- <- <-]|Hrow]; [simpl; tauto|]). done.
  - by apply (supplied_fields_accepted tool op required).
Qed.

Lemma C2_required_fields_witness :
  let args : Args :=
    list_to_map [("operation", JStr "create"); ("title", JStr "Lunch");
                 ("startDate", JStr "1000"); ("duration", JNum (inject_Z 30))] in
  In ("calendar", Some "create", ["title"; "startDate"; "duration"])
     spec_required_fields
  /\ operation_is (Some "create") args
  /\ well_typed "calendar" args = true
  /\ guard_of "calendar" args = true.
Proof.
  intros args.
  assert (Hrow : In ("calendar", Some "create", ["title"; "startDate"; "duration"])
                    spec_required_fields) by (simpl; tauto).
  assert (Hop : operation_is (Some "create") args) by (vm_compute; reflexivity).
  assert (Htyped : well_typed "calendar" args = true) by (vm_compute; reflexivity).
  split; [exact Hrow|]. split; [exact Hop|]. split; [exact Htyped|].
  apply (proj2 (C2_required_fields "calendar" (Some "create")
                  ["title"; "startDate"; "duration"] args Hrow Hop) Htyped).
  intros f [<-|[<-|[<-|[]]]]; vm_compute; reflexivity.
Defined.

(** Against C2 as worded.  A reminders find without searchText: the
    answer is the generic text,
    in which the field's name does not occur; and a calendar create gives
    the very same answer whether title or duration is the field left
    out, so the answer cannot tell which one it was. *)
Lemma C2_missing_field_not_named :
  handler Demo.platform (Demo.request "reminders" [("operation", JStr "find")])
    Demo.home
  = (Ok {| text := "Error: Invalid arguments for reminders tool"; isError := true |},
     Demo.home)
  /\ includes "Error: Invalid arguments for reminders tool" "searchText" = false
  /\ handler Demo.platform
       (Demo.request "calendar"
          [("operation", JStr "create"); ("startDate", JStr "1000");
           ("duration", JNum (inject_Z 30))]) Demo.home
     = handler Demo.platform
         (Demo.request "calendar"
            [("operation", JStr "create"); ("title", JStr "Lunch");
             ("startDate", JStr "1000")]) Demo.home.
Proof. vm_compute. repeat split. Qed.

(** The presence test [!duration] also rejects a duration of zero, and
    [!title] an empty title. *)
Lemma calendar_create_zero_duration_rejected :
  isCalendarArgs
    (list_to_map [("operation", JStr "create"); ("title", JStr "Lunch");
                  ("startDate", JStr "1000"); ("duration", JNum (inject_Z 0))])
  = false
  /\ isCalendarArgs
       (list_to_map [("operation", JStr "create"); ("title", JStr EmptyString);
                     ("startDate", JStr "1000"); ("duration", JNum (inject_Z 30))])
     = false.
Proof. vm_compute. by split. Qed.

(** * Further properties of the embedded code *)

(** ** Substring tests *)

Lemma startsWith_app (p s : string) :
  startsWith p s = true <-> exists post, s = p +:+ post.
Proof.
  revert s. induction p as [|a p IH]; intros s; simpl.
  - split; [by exists s|done].
  - destruct s as [|b s]; simpl.
    + split; [done|]. by intros [post Hpost].
    + rewrite andb_true_iff, IH. split.
      * intros [Hab [post ->]]. apply Ascii.eqb_eq in Hab as ->. by exists post.
      * intros [post [= -> ->]]. split; [apply Ascii.eqb_refl|by exists post].
Qed.

(** X1. [s.includes(p)] as embedded holds exactly when [p] occurs in [s]:
    [s] is some prefix, then [p], then some suffix.  So the text filter of
    the calendar search accepts an event exactly when its title,
    description or location contains the search text, and the empty text
    occurs in every string. *)
Theorem includes_iff_occurs (s p : string) :
  (includes s p = true <-> exists pre post, s = pre +:+ p +:+ post)
  /\ includes s EmptyString = true.
Proof.
  split.
  - induction s as [|c s IH]; simpl; rewrite orb_true_iff, startsWith_app.
    + split.
      * intros [[post Hpost]|H]; [|done]. by exists EmptyString, post.
      * intros (pre & post & Hs). left.
        destruct pre; [by exists post|done].
    + rewrite IH. split.
      * intros [[post Hpost]|(pre & post & ->)].
        -- by exists EmptyString, post.
        -- by exists (String c pre), post.
      * intros ([|c' pre] & post & Hs); simpl in Hs.
        -- left. by exists post.
        -- right. injection Hs as -> ->. by exists pre, post.
  - by destruct s.
Qed.

(** ** What the guards accept *)

Lemma type_ok_iff (t : string) (v : option JsValue) :
  type_ok t v = true <-> (truthy v = true -> typeof v = t).
Proof.
  unfold type_ok, is_type. destruct (truthy v); simpl.
  - rewrite negb_true_iff, negb_false_iff, String.eqb_eq. tauto.
  - split; [done|by intros _].
Qed.

Ltac guard_facts H :=
  repeat match type of H with
         | (if negb ?b then false else _) = true =>
             let E := fresh "E" in destruct b eqn:E; simpl in H; [|discriminate H]
         | (if ?b then false else _) = true =>
             let E := fresh "E" in destruct b eqn:E; simpl in H; [discriminate H|]
         end;
  repeat match goal with
         | E : (if ?c then false else _) = true |- _ =>
             let E' := fresh "E" in
             destruct c eqn:E'; [discriminate E|simpl in E]
         | E : _ || _ = false |- _ =>
             apply orb_false_elim in E; destruct E
         | E : _ && _ = false |- _ =>
             apply andb_false_iff in E
         | E : negb _ = false |- _ => apply negb_false_iff in E
         | E : true = true |- _ => clear E
         end.

Ltac typed_fields :=
  let f := fresh "f" in let t := fresh "t" in let Hin := fresh "Hin" in
  intros f t Hin; simpl in Hin;
  repeat (destruct Hin as [[= <- <-]|Hin]; [by apply type_ok_iff|]);
  destruct Hin.

Ltac required_fields :=
  let f := fresh "f" in let Hin := fresh "Hin" in
  intros f Hin; simpl in Hin;
  repeat (destruct Hin as [<-|Hin]; [done|]);
  destruct Hin.

Lemma guard_accepts_only (tool : string) (ops : list string) (args : Args) :
  operations_of tool = Some ops ->
  guard_of tool args = true ->
  exists op required,
    In (tool, Some op, required) spec_required_fields
    /\ args !! "operation" = Some (JStr op)
    /\ (forall f, In f required -> truthy (args !! f) = true)
    /\ (forall f t, In (f, t) (field_types tool) ->
                    truthy (args !! f) = true -> typeof (args !! f) = t).
Proof.
  unfold operations_of, guard_of. intros Hops H.
  destruct (String.eqb tool "messages") eqn:E1.
  { apply String.eqb_eq in E1 as ->. simpl in H. unfold isMessagesArgs in H.
    destruct (args !! "operation") as [[|b|q|s|]|] eqn:Eo; simpl in H; try done.
    { by destruct b. }
    { by destruct (negb (Qeq_bool q 0)). }
    destruct (nonempty s); simpl in H; [|done].
    case_operation s "send".
    { simpl in H. guard_facts H.
      exists "send", ["phoneNumber"; "message"].
      split; [simpl; tauto|]. split; [done|]. split; [required_fields|typed_fields]. }
    case_operation s "read".
    { simpl in H. guard_facts H.
      exists "read", ["phoneNumber"].
      split; [simpl; tauto|]. split; [done|]. split; [required_fields|typed_fields]. }
    case_operation s "schedule".
    { simpl in H. guard_facts H.
      exists "schedule", ["phoneNumber"; "message"; "scheduledTime"].
      split; [simpl; tauto|]. split; [done|]. split; [required_fields|typed_fields]. }
    case_operation s "unread".
    { simpl in H. guard_facts H.
      exists "unread", [].
      split; [simpl; tauto|]. split; [done|]. split; [required_fields|typed_fields]. }
    simpl in H. done. }
  destruct (String.eqb tool "reminders") eqn:E2.
  { apply String.eqb_eq in E2 as ->. simpl in H. unfold isRemindersArgs in H.
    destruct (args !! "operation") as [[|b|q|s|]|] eqn:Eo; simpl in H; try done.
    { by destruct b. }
    { by destruct (negb (Qeq_bool q 0)). }
    destruct (nonempty s); simpl in H; [|done].
    case_operation s "list".
    { simpl in H. guard_facts H.
      exists "list", [].
      split; [simpl; tauto|]. split; [done|]. split; [required_fields|typed_fields]. }
    case_operation s "find".
    { simpl in H. guard_facts H.
      exists "find", ["searchText"].
      split; [simpl; tauto|]. split; [done|]. split; [required_fields|typed_fields]. }
    case_operation s "create".
    { simpl in H. guard_facts H.
      exists "create", ["title"].
      split; [simpl; tauto|]. split; [done|]. split; [required_fields|typed_fields]. }
    case_operation s "complete".
    { simpl in H. guard_facts H.
      exists "complete", ["id"].
      split; [simpl; tauto|]. split; [done|]. split; [required_fields|typed_fields]. }
    simpl in H. done. }
  destruct (String.eqb tool "calendar") eqn:E3; [|done].
  apply String.eqb_eq in E3 as ->. simpl in H. unfold isCalendarArgs in H.
  destruct (args !! "operation") as [[|b|q|s|]|] eqn:Eo; simpl in H; try done.
  { by destruct b. }
  { by destruct (negb (Qeq_bool q 0)). }
  destruct (nonempty s); simpl in H; [|done].
  case_operation s "list".
  { simpl in H. guard_facts H.
    exists "list", [].
    split; [simpl; tauto|]. split; [done|]. split; [required_fields|typed_fields]. }
  case_operation s "find".
  { simpl in H. guard_facts H.
    exists "find", ["searchText"].
    split; [simpl; tauto|]. split; [done|]. split; [required_fields|typed_fields]. }
  case_operation s "create".
  { simpl in H. guard_facts H.
    exists "create", ["title"; "startDate"; "duration"].
    split; [simpl; tauto|]. split; [done|]. split; [required_fields|typed_fields]. }
  simpl in H. done.
Qed.

Lemma guard_accepts_all (tool op : string) (required : list string) (args : Args) :
  In (tool, Some op, required) spec_required_fields ->
  args !! "operation" = Some (JStr op) ->
  (forall f, In f required -> truthy (args !! f) = true) ->
  (forall f t, In (f, t) (field_types tool) ->
               truthy (args !! f) = true -> typeof (args !! f) = t) ->
  guard_of tool args = true.
Proof.
  intros Hrow Hop Hreq Htyped. simpl in Hrow.
  assert (Hok : forall f t, In (f, t) (field_types tool) ->
                            type_ok t (args !! f) = true).
  { intros f t Hin. apply type_ok_iff. by apply Htyped. }
  clear Htyped.
  destruct Hrow as [Hr|[Hr|Hrow]]; [discriminate Hr..|].
  repeat (destruct Hrow as [[= <- <- <-]|Hrow];
          [unfold guard_of; simpl;
           unfold isMessagesArgs, isRemindersArgs, isCalendarArgs;
           rewrite Hop; simpl;
           rewrite ?Hreq by (simpl; tauto); simpl;
           rewrite ?Hok by (simpl; tauto);
           done |]).
  done.
Qed.

(** X2. The guards of the three tools that dispatch on an operation accept
    an argument object exactly when: its operation is one of the tool's
    operations, every field the table requires for that operation is
    truthy, and every field the guard type-checks is falsy or of the
    expected type.  A falsy value of the wrong type (null, false, 0, the
    empty string) in an optional field is therefore accepted, and a
    required field that is present but falsy is rejected. *)
Theorem guard_accepts_iff (tool : string) (ops : list string) (args : Args) :
  operations_of tool = Some ops ->
  (guard_of tool args = true
   <-> exists op required,
         In (tool, Some op, required) spec_required_fields
         /\ args !! "operation" = Some (JStr op)
         /\ (forall f, In f required -> truthy (args !! f) = true)
         /\ (forall f t, In (f, t) (field_types tool) ->
                         truthy (args !! f) = true -> typeof (args !! f) = t)).
Proof.
  intros Hops. split.
  - by apply guard_accepts_only with ops.
  - intros (op & required & Hrow & Hop & Hreq & Htyped).
    by apply guard_accepts_all with op required.
Qed.

Lemma guard_accepts_iff_witness :
  let args : Args :=
    list_to_map [("operation", JStr "unread"); ("limit", JNull)] in
  operations_of "messages" = Some ["send"; "read"; "schedule"; "unread"]
  /\ guard_of "messages" args = true.
Proof.
  intros args. split; [reflexivity|].
  apply (proj2 (guard_accepts_iff "messages" _ args eq_refl)).
  exists "unread", [].
  split; [simpl; tauto|]. split; [vm_compute; reflexivity|].
  split; [intros f []|].
  intros f t Hin. simpl in Hin.
  destruct Hin as [[= <- <-]|[[= <- <-]|[[= <- <-]|[[= <- <-]|[]]]]];
    vm_compute; intros Ht; congruence.
Defined.

(** ** How the utility functions end *)

Lemma try_catch_outcome {A} (body : M A) (pre : string) (w : World) :
  (exists x w', try_catch body (fun e => throw (pre +:+ e)) w = (Ok x, w')
                /\ body w = (Ok x, w'))
  \/ (exists e w', try_catch body (fun e => throw (pre +:+ e)) w
                   = (Throw (pre +:+ e), w')).
Proof.
  unfold try_catch, throw. destruct (body w) as [[x|e] w']; eauto.
Qed.

Lemma createReminder_outcome (P : Platform) title0 notes0 due w :
  (exists r w', createReminder P title0 notes0 due w = (Ok (Some r), w'))
  \/ (exists e w', createReminder P title0 notes0 due w
                   = (Throw ("Error creating reminder: " +:+ e), w')).
Proof.
  unfold createReminder.
  destruct (try_catch_outcome
              (ok <~ checkRemindersAccess P ;;
               if negb ok then ret None
               else iso <~ toISOString_opt P due ;;
                    newReminder <~ run_createReminder P title0 notes0 iso ;;
                    ret (Some newReminder))
              "Error creating reminder: " w)
    as [(x & w' & Hrun & Hbody)|(e & w' & Hrun)]; [|eauto].
  left. rewrite Hrun. unfold bind in Hbody.
  rewrite checkRemindersAccess_run in Hbody.
  destruct (reminders_access w); [|done]. simpl in Hbody.
  destruct (toISOString_opt P due _) as [[iso|e] w1]; [|done].
  destruct (run_createReminder P title0 notes0 iso w1) as [[r|e] w2]; [|done].
  injection Hbody as <- <-. eauto.
Qed.

Lemma createEvent_outcome (P : Platform) title0 startDate duration description
    location w :
  (exists ev w', createEvent P title0 startDate duration description location w
                 = (Ok (Some ev), w'))
  \/ (exists e w', createEvent P title0 startDate duration description location w
                   = (Throw ("Error creating calendar event: " +:+ e), w')).
Proof.
  unfold createEvent, try_catch, bind.
  rewrite checkCalendarAccess_run.
  destruct (calendar_access w); simpl; [|eauto].
  destruct startDate as [s|]; simpl; [|unfold throw; eauto].
  destruct (date_after_minutes P s duration) as [e|]; simpl; [|unfold throw; eauto].
  unfold run_createEvent. simpl.
  destruct (calendars w !! default_calendar w) as [cal|]; [|unfold throw; eauto].
  destruct (cal_events cal) as [evs|msg]; simpl; unfold throw; eauto.
Qed.

Lemma startsWith_longer (p q t : string) :
  startsWith p t = false -> startsWith (p +:+ q) t = false.
Proof.
  revert t. induction p as [|a p IH]; intros t; simpl; [done|].
  destruct t as [|b t]; [done|].
  destruct (Ascii.eqb a b); simpl; [apply IH|done].
Qed.

Ltac utility_outcome :=
  match goal with
  | |- context [try_catch ?b (fun e => throw (?pre +:+ e)) ?w0] =>
      let x := fresh "x" in let e := fresh "e" in let w' := fresh "w'" in
      let Hrun := fresh "Hrun" in
      destruct (try_catch_outcome b pre w0)
        as [(x & w' & Hrun & _)|(e & w' & Hrun)];
      rewrite Hrun
  end.

Ltac utility_error op :=
  right; right; left; split; [done|]; exists op; eexists; split; reflexivity.

Lemma handler_reminders_outcome (P : Platform) (args : Args) (w : World) :
  isRemindersArgs args = true ->
  exists r w',
    handler P {| name := "reminders"; arguments := Some args |} w = (Ok r, w')
    /\ ((isError r = false /\ startsWith "Error: " (text r) = false)
        \/ (isError r = true /\ False)
        \/ (isError r = true
            /\ exists op e, domain_of op = DReminders
                            /\ text r = "Error: " +:+ error_prefix op +:+ e)
        \/ (isError r = true
            /\ args !! "operation" = Some (JStr "complete")
            /\ text r = "Failed to complete reminder. ID "
                        +:+ arg_str (args !! "id") +:+ " not found.")).
Proof.
  intros Hguard.
  unfold handler, handler_body, try_catch at 1. simpl.
  unfold case_reminders. rewrite Hguard. simpl.
  destruct (isRemindersArgs_inv args Hguard)
    as [Eo|[[Eo Ha]|[[Eo Ha]|[Eo Ha]]]]; rewrite Eo; simpl;
    rewrite ?(text_arg_truthy _ _ Ha); simpl; unfold bind.
  - unfold getAllReminders. utility_outcome.
    + eexists _, _. split; [done|]. left. simpl. by destruct (some x).
    + eexists _, _. split; [done|]. utility_error OpGetAllReminders.
  - unfold findReminders. utility_outcome.
    + eexists _, _. split; [done|]. left. simpl. by destruct (some x).
    + eexists _, _. split; [done|].
      utility_error (OpFindReminders (arg_str (args !! "searchText"))).
  - match goal with
    | |- context [createReminder P ?t ?n ?d w] =>
        destruct (createReminder_outcome P t n d w)
          as [(x & w' & ->)|(e & w' & ->)]
    end.
    + eexists _, _. split; [done|]. by left.
    + eexists _, _. split; [done|].
      utility_error (OpCreateReminder EmptyString EmptyString None).
  - unfold completeReminder. utility_outcome.
    + eexists _, _. split; [done|]. destruct x; simpl.
      * by left.
      * by right; right; right.
    + eexists _, _. split; [done|].
      utility_error (OpCompleteReminder EmptyString).
Qed.

Lemma handler_calendar_outcome (P : Platform) (args : Args) (w : World) :
  isCalendarArgs args = true ->
  exists r w',
    handler P {| name := "calendar"; arguments := Some args |} w = (Ok r, w')
    /\ ((isError r = false /\ startsWith "Error: " (text r) = false)
        \/ (isError r = true /\ False)
        \/ (isError r = true
            /\ exists op e, domain_of op = DCalendar
                            /\ text r = "Error: " +:+ error_prefix op +:+ e)
        \/ False).
Proof.
  intros Hguard.
  unfold handler, handler_body, try_catch at 1. simpl.
  unfold case_calendar. rewrite Hguard. simpl.
  destruct (isCalendarArgs_inv args Hguard)
    as [Eo|[[Eo Ha]|(Eo & Ht & Hs & q & Hq & Hq0)]]; rewrite Eo; simpl.
  - unfold bind, getAllEvents. utility_outcome.
    + eexists _, _. split; [done|]. left. simpl. by destruct (some x).
    + eexists _, _. split; [done|]. utility_error OpGetAllEvents.
  - rewrite (text_arg_truthy _ _ Ha). simpl.
    unfold bind, findEvents. utility_outcome.
    + eexists _, _. split; [done|]. left. simpl. by destruct (some x).
    + eexists _, _. split; [done|].
      utility_error (OpFindEvents EmptyString None None).
  - rewrite (text_arg_truthy _ _ Ht), (text_arg_truthy _ _ Hs), Hq. simpl.
    rewrite Hq0. simpl. unfold bind.
    match goal with
    | |- context [createEvent P ?t ?sd ?du ?de ?lo w] =>
        destruct (createEvent_outcome P t sd du de lo w)
          as [(x & w' & ->)|(e & w' & ->)]
    end.
    + eexists _, _. split; [done|]. by left.
    + eexists _, _. split; [done|].
      utility_error (OpCreateEvent EmptyString InvalidDate 0%Q EmptyString EmptyString).
Qed.

(** X3. Every answer of the reminders and calendar tools is of one of four
    kinds: a success, whose text does not begin with "Error: "; the
    generic "Invalid arguments" error, exactly when the guard fails, with
    the world untouched; an error of a utility function, carrying that
    function's prefix; or, for complete, "Failed to complete reminder. ID
    ... not found.".  The messages of the handler's own required-field
    checks, of its tests for a [null] created item and of its default
    "Unknown operation" branches can never be the answer: the guard has
    already excluded them and the create functions never return [null]. *)
Theorem tool_answers_classified (P : Platform) (d : Domain) (args : Args)
    (w : World) :
  exists r w',
    handler P {| name := tool_of d; arguments := Some args |} w = (Ok r, w')
    /\ ((isError r = false /\ startsWith "Error: " (text r) = false)
        \/ (isError r = true
            /\ guard_of (tool_of d) args = false
            /\ text r = "Error: Invalid arguments for " +:+ tool_of d +:+ " tool"
            /\ w' = w)
        \/ (isError r = true
            /\ guard_of (tool_of d) args = true
            /\ exists op e, domain_of op = d
                            /\ text r = "Error: " +:+ error_prefix op +:+ e)
        \/ (isError r = true
            /\ guard_of (tool_of d) args = true
            /\ d = DReminders
            /\ args !! "operation" = Some (JStr "complete")
            /\ text r = "Failed to complete reminder. ID "
                        +:+ arg_str (args !! "id") +:+ " not found."))
    /\ ~ In (text r) unreachable_messages
    /\ startsWith "Error: Unknown operation: " (text r) = false.
Proof.
  assert (Hkinds : exists r w',
    handler P {| name := tool_of d; arguments := Some args |} w = (Ok r, w')
    /\ ((isError r = false /\ startsWith "Error: " (text r) = false)
        \/ (isError r = true
            /\ guard_of (tool_of d) args = false
            /\ text r = "Error: Invalid arguments for " +:+ tool_of d +:+ " tool"
            /\ w' = w)
        \/ (isError r = true
            /\ guard_of (tool_of d) args = true
            /\ exists op e, domain_of op = d
                            /\ text r = "Error: " +:+ error_prefix op +:+ e)
        \/ (isError r = true
            /\ guard_of (tool_of d) args = true
            /\ d = DReminders
            /\ args !! "operation" = Some (JStr "complete")
            /\ text r = "Failed to complete reminder. ID "
                        +:+ arg_str (args !! "id") +:+ " not found."))).
  { destruct (guard_of (tool_of d) args) eqn:Hguard.
    - destruct d; simpl in Hguard.
      + destruct (handler_reminders_outcome P args w Hguard)
          as (r & w' & Hrun & [Hk|[[_ []]|[[He Hk]|(He & Ho & Ht)]]]);
          exists r, w'; (split; [done|]); tauto.
      + destruct (handler_calendar_outcome P args w Hguard)
          as (r & w' & Hrun & [Hk|[[_ []]|[[He Hk]|[]]]]);
          exists r, w'; (split; [done|]); tauto.
    - eexists _, w. split.
      + apply handler_guard_false; [by destruct d; simpl; tauto|done].
      + right; left. by repeat split. }
  destruct Hkinds as (r & w' & Hrun & Hkinds).
  exists r, w'. split; [done|]. split; [done|].
  destruct Hkinds as [[_ Hs]|[(_ & _ & Ht & _)|[(_ & _ & op & e & _ & Ht)|(_ & _ & _ & _ & Ht)]]].
  - split.
    + intros Hin. simpl in Hin.
      repeat (destruct Hin as [Heq|Hin]; [by rewrite <- Heq in Hs|]). done.
    + by apply (startsWith_longer "Error: " "Unknown operation: ").
  - rewrite Ht. destruct d; split; try done;
      (intros Hin; simpl in Hin;
       repeat (destruct Hin as [Heq|Hin]; [discriminate Heq|]); done).
  - rewrite Ht. destruct op; split; try done;
      (intros Hin; simpl in Hin;
       repeat (destruct Hin as [Heq|Hin]; [discriminate Heq|]); done).
  - rewrite Ht. split; [|done].
    intros Hin; simpl in Hin.
    repeat (destruct Hin as [Heq|Hin]; [discriminate Heq|]). done.
Qed.

(** ** What the operations leave alone *)

Section Frames.
Context (kr kc : bool).

Lemma frame_refl w : frame kr kc w w.
Proof. by repeat split. Qed.

Lemma frame_trans w1 w2 w3 :
  frame kr kc w1 w2 -> frame kr kc w2 w3 -> frame kr kc w1 w3.
Proof.
  intros (H1 & H2 & H3 & H4 & H5 & H6) (G1 & G2 & G3 & G4 & G5 & G6).
  repeat split; try congruence.
  - intros Hk. rewrite G5, H5; done.
  - intros Hk. rewrite G6, H6; done.
Qed.

Lemma frame_log c w : frame kr kc w (log_call c w).
Proof. by repeat split. Qed.

Lemma preserves_ret {A} (a : A) : preserves (frame kr kc) (ret a).
Proof. intros w. apply frame_refl. Qed.

Lemma preserves_throw {A} msg : preserves (frame kr kc) (@throw A msg).
Proof. intros w. apply frame_refl. Qed.

Lemma preserves_bind {A B} (m : M A) (k : A -> M B) :
  preserves (frame kr kc) m ->
  (forall a, preserves (frame kr kc) (k a)) ->
  preserves (frame kr kc) (bind m k).
Proof.
  intros Hm Hk w. unfold bind. specialize (Hm w).
  destruct (m w) as [[a|e] w1]; simpl in *; [|done].
  apply frame_trans with w1; [done|apply Hk].
Qed.

Lemma preserves_try_catch {A} (body : M A) (handler : string -> M A) :
  preserves (frame kr kc) body ->
  (forall e, preserves (frame kr kc) (handler e)) ->
  preserves (frame kr kc) (try_catch body handler).
Proof.
  intros Hm Hk w. unfold try_catch. specialize (Hm w).
  destruct (body w) as [[a|e] w1]; simpl in *; [done|].
  apply frame_trans with w1; [done|apply Hk].
Qed.

Lemma preserves_if {A} (b : bool) (m1 m2 : M A) :
  preserves (frame kr kc) m1 -> preserves (frame kr kc) m2 ->
  preserves (frame kr kc) (if b then m1 else m2).
Proof. by destruct b. Qed.

End Frames.

Ltac frames :=
  repeat first
    [ apply preserves_ret | apply preserves_throw
    | apply preserves_bind; [|intros ?]
    | apply preserves_try_catch; [|intros ?]
    | apply preserves_if
    | assumption ].

Lemma preserves_toISOString (P : Platform) kr kc d :
  preserves (frame kr kc) (toISOString P d).
Proof. destruct d; frames. Qed.

Lemma preserves_toISOString_opt (P : Platform) kr kc d :
  preserves (frame kr kc) (toISOString_opt P d).
Proof. destruct d; simpl; frames. apply preserves_toISOString. Qed.

Ltac frames_of_steps :=
  frames;
  try apply preserves_toISOString_opt;
  try apply preserves_toISOString;
  try (let w := fresh "w" in intros w; by repeat split).

Lemma preserves_getAllReminders (P : Platform) kr kc :
  preserves (frame kr kc) (getAllReminders P).
Proof. unfold getAllReminders. frames_of_steps. Qed.

Lemma preserves_findReminders (P : Platform) kr kc t :
  preserves (frame kr kc) (findReminders P t).
Proof. unfold findReminders. frames_of_steps. Qed.

Lemma preserves_getAllEvents (P : Platform) kr kc :
  preserves (frame kr kc) (getAllEvents P).
Proof. unfold getAllEvents. frames_of_steps. Qed.

Lemma preserves_findEvents (P : Platform) kr kc t sd ed :
  preserves (frame kr kc) (findEvents P t sd ed).
Proof. unfold findEvents. frames_of_steps. Qed.

Lemma preserves_createReminder (P : Platform) kc t n d :
  preserves (frame false kc) (createReminder P t n d).
Proof.
  unfold createReminder. frames_of_steps.
  intros w. unfold run_createReminder.
  destruct (reminder_lists w !! default_list w) as [src|]; [|by repeat split].
  destruct (push_to _ src); by repeat split.
Qed.

Lemma preserves_completeReminder (P : Platform) kc i :
  preserves (frame false kc) (completeReminder P i).
Proof.
  unfold completeReminder. frames_of_steps.
  intros w. unfold run_completeReminder.
  destruct (complete_in_lists i (reminder_lists w)) as [[lists'|]|msg];
    by repeat split.
Qed.

Lemma preserves_createEvent (P : Platform) kr t sd du de lo :
  preserves (frame kr false) (createEvent P t sd du de lo).
Proof.
  unfold createEvent. frames_of_steps.
  intros w. unfold run_createEvent.
  destruct (calendars w !! default_calendar w) as [cal|]; [|by repeat split].
  destruct (push_to _ (cal_events cal)); by repeat split.
Qed.

(** X4. No operation of the two utility modules changes the permission
    bits or which list and calendar are the default ones; the operations
    that list or find leave every reminder list and every calendar as it
    was, whatever their arguments and whether they succeed or fail; and
    the writing operations touch their own application only: creating or
    completing a reminder leaves the calendars alone, creating an event
    leaves the reminder lists alone. *)
Theorem operations_frame (P : Platform) (op : Operation) (w : World) :
  let w' := snd (run_operation P op w) in
  reminders_access w' = reminders_access w
  /\ calendar_access w' = calendar_access w
  /\ default_list w' = default_list w
  /\ default_calendar w' = default_calendar w
  /\ (is_read op = true ->
      reminder_lists w' = reminder_lists w /\ calendars w' = calendars w)
  /\ (domain_of op = DReminders -> calendars w' = calendars w)
  /\ (domain_of op = DCalendar -> reminder_lists w' = reminder_lists w).
Proof.
  assert (Hsnd : forall A (r : Res A * World), snd (error_of r) = snd r).
  { by intros A [[a|e] w0]. }
  assert (Hall : frame (is_read op || match domain_of op with
                                      | DCalendar => true | _ => false end)
                       (is_read op || match domain_of op with
                                      | DReminders => true | _ => false end)
                       w (snd (run_operation P op w))).
  { destruct op; simpl; rewrite Hsnd.
    - apply preserves_getAllReminders.
    - apply preserves_findReminders.
    - apply preserves_createReminder.
    - apply preserves_completeReminder.
    - apply preserves_getAllEvents.
    - apply preserves_findEvents.
    - apply preserves_createEvent. }
  destruct Hall as (H1 & H2 & H3 & H4 & H5 & H6).
  repeat split; try done.
  - apply H5. by rewrite H.
  - apply H6. by rewrite H.
  - intros Hd. apply H6. rewrite Hd. by destruct (is_read op).
  - intros Hd. apply H5. rewrite Hd. by destruct (is_read op).
Qed.

(** ** What completing can change *)

Lemma marked_refl_list (items : list RawReminder) : Forall2 marked items items.
Proof. induction items; constructor; [by left|done]. Qed.

Lemma source_marked_refl (srcs : list (Source RawReminder)) :
  Forall2 source_marked srcs srcs.
Proof.
  induction srcs as [|[items|msg] srcs IH]; constructor; try done.
  apply marked_refl_list.
Qed.

Lemma mark_first_marked i items items' :
  mark_first i items = Some items' -> Forall2 marked items items'.
Proof.
  revert items'. induction items as [|r items IH]; simpl; [done|]. intros items'.
  destruct (String.eqb (r_id r) i).
  - intros [= <-]. constructor; [by right|apply marked_refl_list].
  - destruct (mark_first i items) as [rest'|]; simpl; [|done]. intros [= <-].
    constructor; [by left|by apply IH].
Qed.

Lemma complete_in_lists_marked i srcs srcs' :
  complete_in_lists i srcs = Ok (Some srcs') -> Forall2 source_marked srcs srcs'.
Proof.
  revert srcs'. induction srcs as [|[items|msg] srcs IH]; simpl; intros srcs'; try done.
  destruct (mark_first i items) as [items'|] eqn:E.
  - intros [= <-]. constructor; [|apply source_marked_refl].
    by apply (mark_first_marked i).
  - destruct (complete_in_lists i srcs) as [[rest'|]|]; try done.
    intros [= <-]. constructor; [apply marked_refl_list|by apply IH].
Qed.

(** X5. Whatever the world and the id, and whether it succeeds or fails,
    [completeReminder] leaves every list with the same reminders in the
    same order: each reminder is either untouched or the same reminder
    with [completed] set, so no reminder is added, removed, renamed,
    re-dated or un-completed, and a list that cannot be read stays as it
    is.  When it returns [true] some reminder with the given id is
    completed afterwards; when it returns [false] or rejects, nothing at
    all has changed. *)
Theorem completeReminder_only_marks (P : Platform) (i : string) (w : World) :
  let out := completeReminder P i w in
  Forall2 source_marked (reminder_lists w) (reminder_lists (snd out))
  /\ (fst out = Ok true ->
      exists r, In r (enumerable_reminders (snd out))
                /\ r_id r = i /\ r_completed r = true)
  /\ (fst out <> Ok true -> reminder_lists (snd out) = reminder_lists w).
Proof.
  simpl. rewrite completeReminder_run.
  destruct (reminders_access w); simpl;
    [|split; [apply source_marked_refl|by split]].
  destruct (complete_in_lists i (reminder_lists w)) as [[lists'|]|msg] eqn:Hrun;
    simpl; try (split; [apply source_marked_refl|by split]).
  split; [by apply (complete_in_lists_marked i)|]. split; [|done].
  intros _. unfold enumerable_reminders. simpl.
  clear -Hrun. revert lists' Hrun.
  induction (reminder_lists w) as [|[items|msg] srcs IH]; simpl; intros lists'; try done.
  destruct (mark_first i items) as [items'|] eqn:E.
  - intros [= <-].
    destruct (mark_first_some _ _ _ E) as (pre & r & post & -> & _ & Hr & ->).
    exists (set_completed r). simpl. split; [|done].
    apply in_or_app. left. apply in_or_app. right. by left.
  - destruct (complete_in_lists i srcs) as [[rest'|]|]; try done.
    intros [= <-]. destruct (IH rest' eq_refl) as (r & Hin & Hr).
    exists r. split; [|done]. simpl. apply in_or_app. by right.
Qed.

(** ** What a find returns *)

Lemma in_search_calendar searchText (s e : option Z) (evs : list RawEvent) ev :
  In ev (search_calendar searchText s e evs)
  <-> In ev evs
      /\ text_filter searchText ev = true
      /\ (forall s' e', s = Some s' -> e = Some e' -> whose_dates s' e' ev = true).
Proof.
  unfold search_calendar, events_in_calendar. rewrite filter_In.
  destruct s as [s0|], e as [e0|]; rewrite ?filter_In;
    try (split; [intros [Hin Ht]; by repeat split|intros (Hin & Ht & _); by split]).
  split.
  - intros [[Hin Hd] Ht]. repeat split; try done. by intros s' e' [= <-] [= <-].
  - intros (Hin & Ht & Hd). repeat split; try done. by apply Hd.
Qed.

Lemma in_search_calendars searchText (s e : option Z) (R : list (list RawEvent)) ev :
  In ev (concat (map (search_calendar searchText s e) R))
  <-> In ev (concat R)
      /\ text_filter searchText ev = true
      /\ (forall s' e', s = Some s' -> e = Some e' -> whose_dates s' e' ev = true).
Proof.
  induction R as [|evs R IH]; simpl.
  - tauto.
  - rewrite !in_app_iff, IH, in_search_calendar. tauto.
Qed.



Lemma exact_match_in_strict (P : Platform) searchText (s e : option Z) w ev :
  In ev (enumerable_events w) ->
  text_filter searchText ev = true ->
  (forall s' e', s = Some s' -> e = Some e' ->
                 (s' <= e_startDate ev /\ e_endDate ev <= e')%Z) ->
  In (to_event P ev) (strict_events P searchText s e w).
Proof.
  intros Hin Ht Hd.
  unfold strict_events. rewrite find_in_calendars_concat. apply in_map.
  apply in_search_calendars. repeat split; try done.
  intros s' e' Hs He. by apply whose_dates_spec, Hd.
Qed.

(** X7. With calendar access granted and valid dates, a find misses no
    exact match: every event of a readable calendar that contains the
    search text as written in its title, description or location (and,
    when both dates were given, lies inside the range) is among the
    events returned. *)
Theorem findEvents_complete (P : Platform) (searchText : string) (s e : option Z)
    (w : World) (ev : RawEvent) :
  calendar_access w = true ->
  In ev (enumerable_events w) ->
  text_filter searchText ev = true ->
  (forall s' e', s = Some s' -> e = Some e' ->
                 (s' <= e_startDate ev /\ e_endDate ev <= e')%Z) ->
  exists found,
    fst (findEvents P searchText (ValidDate <$> s) (ValidDate <$> e) w) = Ok found
    /\ In (to_event P ev) found.
Proof.
  intros Hacc Hin Ht Hd.
  assert (Hstrict := exact_match_in_strict P searchText s e w ev Hin Ht Hd).
  destruct (findEvents_cases P searchText s e w Hacc)
    as [(Hempty & _)|[_ Hrun]].
  - rewrite Hempty in Hstrict. destruct Hstrict.
  - rewrite Hrun. by eexists.
Qed.

Lemma findEvents_complete_witness :
  calendar_access Demo.home = true
  /\ In Demo.dentist (enumerable_events Demo.home)
  /\ text_filter "check" Demo.dentist = true
  /\ exists found,
       fst (findEvents Demo.platform "check" (Some (ValidDate 10))
              (Some (ValidDate 20)) Demo.home) = Ok found
       /\ In (to_event Demo.platform Demo.dentist) found.
Proof.
  split; [reflexivity|]. split; [simpl; tauto|]. split; [reflexivity|].
  apply (findEvents_complete Demo.platform "check" (Some 10%Z) (Some 20%Z)
           Demo.home Demo.dentist eq_refl).
  - simpl; tauto.
  - reflexivity.
  - intros s' e' [= <-] [= <-]. simpl. lia.
Defined.

(** X8. With reminders access granted and every list readable, each
    reminder a find returns is one of the reminders a listing returns on
    the same world and matches the text: either the application's own
    query finds the text in its name or body, or its lower-cased title or
    notes contains the lower-cased text (lower-casing being the runtime's
    [toLowerCase]); and every reminder in whose name or body the
    application's query finds the text is returned. *)
Theorem findReminders_sound_and_complete (P : Platform) (searchText : string)
    (w : World) (raw : list RawReminder) :
  reminders_access w = true ->
  strict_reminders P searchText w = Ok raw ->
  exists found listed,
    fst (findReminders P searchText w) = Ok found
    /\ fst (getAllReminders P w) = Ok listed
    /\ (forall x, In x found ->
          In x listed
          /\ exists r,
               In r (enumerable_reminders w) /\ x = to_reminder P r
               /\ ((whose_contains P (Some (r_name r)) searchText = true
                    \/ whose_contains P (r_body r) searchText = true)
                   \/ (includes (toLowerCase P (title x)) (toLowerCase P searchText)
                       = true
                       \/ includes (toLowerCase P (notes x))
                            (toLowerCase P searchText) = true)))
    /\ (forall r, In r (enumerable_reminders w) ->
                  whose_contains P (Some (r_name r)) searchText = true
                  \/ whose_contains P (r_body r) searchText = true ->
                  In (to_reminder P r) found).
Proof.
  intros Hacc Hraw. unfold strict_reminders in Hraw.
  destruct (for_lists_ok _ _ _ _ Hraw) as [Heq Hreadable].
  simpl in Heq. rewrite concat_filter_map in Heq.
  fold (enumerable_reminders w) in Heq.
  assert (Hlisted : fst (getAllReminders P w)
                    = Ok (map (to_reminder P) (enumerable_reminders w))).
  { rewrite getAllReminders_run, Hacc. unfold enumerable_reminders.
    rewrite Hreadable at 1. rewrite for_lists_readable. simpl. by rewrite map_id. }
  assert (Hwhose : forall r, whose_name_or_body P searchText r = true
                             <-> whose_contains P (Some (r_name r)) searchText = true
                                 \/ whose_contains P (r_body r) searchText = true).
  { intros r. unfold whose_name_or_body. by rewrite orb_true_iff. }
  pose proof (findReminders_run P searchText w) as Hrun.
  rewrite Hacc, Hraw in Hrun.
  destruct raw as [|r0 raw].
  - eexists _, _. split; [by rewrite Hrun|]. split; [exact Hlisted|]. split.
    + intros x [Hin Hm]%filter_In. split; [done|].
      apply in_map_iff in Hin as (r & <- & Hr). exists r.
      split; [done|]. split; [done|]. right. by apply reminder_matches_spec.
    + intros r Hr Hm. exfalso.
      assert (Hin : In r (List.filter (whose_name_or_body P searchText)
                            (enumerable_reminders w)))
        by (apply filter_In; split; [done|by apply Hwhose]).
      by rewrite <- Heq in Hin.
  - eexists _, _. split; [by rewrite Hrun|]. split; [exact Hlisted|]. split.
    + intros x Hx. apply in_map_iff in Hx as (r & <- & Hr).
      rewrite Heq in Hr. apply filter_In in Hr as [Hin Hm].
      split; [by apply in_map|]. exists r.
      split; [done|]. split; [done|]. left. by apply Hwhose.
    + intros r Hr Hm. apply (in_map (to_reminder P)).
      rewrite Heq. apply filter_In. split; [done|by apply Hwhose].
Qed.

Lemma findReminders_sound_and_complete_witness :
  reminders_access Demo.home = true
  /\ strict_reminders Demo.platform "RENT" Demo.home = Ok [Demo.rent]
  /\ exists found listed,
       fst (findReminders Demo.platform "RENT" Demo.home) = Ok found
       /\ fst (getAllReminders Demo.platform Demo.home) = Ok listed
       /\ (forall r, In r (enumerable_reminders Demo.home) ->
                     whose_contains Demo.platform (Some (r_name r)) "RENT" = true
                     \/ whose_contains Demo.platform (r_body r) "RENT" = true ->
                     In (to_reminder Demo.platform r) found).
Proof.
  split; [reflexivity|]. split; [reflexivity|].
  destruct (findReminders_sound_and_complete Demo.platform "RENT" Demo.home
              [Demo.rent] eq_refl eq_refl)
    as (found & listed & Hf & Hl & _ & Hc).
  exists found, listed. split; [exact Hf|]. split; [exact Hl|exact Hc].
Defined.

(** ** Dates that cannot be written as ISO strings *)

(** X9. With access granted, an operation that is handed an invalid date
    (or, for creating an event, whose end, as the runtime computes
    [startDate.getTime() + duration * 60000], is not a valid date)
    rejects with its prefix followed by the RangeError of [toISOString];
    this happens after the probe and before any script, so nothing is
    searched, created or changed. *)
Theorem invalid_date_rejected (P : Platform) (op : Operation) (w : World) :
  access (domain_of op) w = true ->
  has_invalid_date P op = true ->
  run_operation P op w
  = (Some (error_prefix op +:+ range_error P),
     logged [probe_of (domain_of op)] w).
Proof.
  intros Hacc Hbad. destruct op; simpl in *; try done.
  - destruct due as [[ms|]|]; try done.
    unfold createReminder, try_catch, bind.
    by rewrite checkRemindersAccess_run, Hacc.
  - rewrite findEvents_invalid_date; [done|done|].
    destruct startDate as [[s|]|], endDate as [[e|]|]; try done; auto.
  - unfold createEvent, try_catch, bind.
    rewrite checkCalendarAccess_run, Hacc. simpl.
    destruct startDate as [s|]; simpl in *; [|done].
    by destruct (date_after_minutes P s duration).
Qed.

Lemma invalid_date_rejected_witness :
  access DCalendar Demo.home = true
  /\ has_invalid_date Demo.platform
       (OpFindEvents "Standup" (Some (ValidDate 10)) (Some InvalidDate)) = true
  /\ run_operation Demo.platform
       (OpFindEvents "Standup" (Some (ValidDate 10)) (Some InvalidDate)) Demo.home
     = (Some "Error finding calendar events: Invalid time value",
        logged [ProbeCalendar] Demo.home)
  /\ has_invalid_date Demo.platform
       (OpCreateEvent "Party" (ValidDate 8640000000000000) (inject_Z 1)
          EmptyString EmptyString) = true
  /\ run_operation Demo.platform
       (OpCreateEvent "Party" (ValidDate 8640000000000000) (inject_Z 1)
          EmptyString EmptyString) Demo.home
     = (Some "Error creating calendar event: Invalid time value",
        logged [ProbeCalendar] Demo.home).
Proof.
  split; [reflexivity|]. split; [reflexivity|].
  split.
  { exact (invalid_date_rejected Demo.platform
             (OpFindEvents "Standup" (Some (ValidDate 10)) (Some InvalidDate))
             Demo.home eq_refl eq_refl). }
  split; [reflexivity|].
  exact (invalid_date_rejected Demo.platform
           (OpCreateEvent "Party" (ValidDate 8640000000000000) (inject_Z 1)
              EmptyString EmptyString)
           Demo.home eq_refl eq_refl).
Defined.

(** ** Reading the reminder lists is all or nothing *)

Lemma all_readable {A} (srcs : list (Source A)) :
  existsb is_unreadable srcs = false -> srcs = map Readable (readable srcs).
Proof.
  induction srcs as [|[items|msg] srcs IH]; simpl; try done.
  intros H. by rewrite <- IH.
Qed.

Lemma for_lists_throw_same {A B C} (f : list A -> list B) (g : list A -> list C)
    acc acc' srcs msg :
  for_lists f acc srcs = Throw msg -> for_lists g acc' srcs = Throw msg.
Proof.
  revert acc acc'. induction srcs as [|[items|m] srcs IH]; simpl; intros acc acc'.
  - done.
  - apply IH.
  - by intros [= ->].
Qed.

(** X10. With reminders access granted, listing the reminders succeeds
    exactly when no list raises while it is read, and so does finding:
    one unreadable list makes the whole call reject, with that list's
    message, however many readable lists there are. *)
Theorem reminders_all_or_nothing (P : Platform) (searchText : string) (w : World) :
  reminders_access w = true ->
  ((exists listed, fst (getAllReminders P w) = Ok listed)
   <-> existsb is_unreadable (reminder_lists w) = false)
  /\ ((exists found, fst (findReminders P searchText w) = Ok found)
      <-> existsb is_unreadable (reminder_lists w) = false)
  /\ (existsb is_unreadable (reminder_lists w) = true ->
      exists msg,
        Unreadable msg ∈ reminder_lists w
        /\ fst (getAllReminders P w) = Throw ("Error accessing reminders: " +:+ msg)
        /\ fst (findReminders P searchText w)
           = Throw ("Error finding reminders: " +:+ msg)).
Proof.
  intros Hacc.
  assert (Hbad : existsb is_unreadable (reminder_lists w) = true ->
            exists msg,
              Unreadable msg ∈ reminder_lists w
              /\ fst (getAllReminders P w)
                 = Throw ("Error accessing reminders: " +:+ msg)
              /\ fst (findReminders P searchText w)
                 = Throw ("Error finding reminders: " +:+ msg)).
  { intros Hex. rewrite getAllReminders_run, findReminders_run, Hacc.
    destruct (for_lists_throws (fun items : list RawReminder => items) []
                (reminder_lists w) Hex) as (msg & Hthrow & Hin).
    rewrite Hthrow.
    rewrite (for_lists_throw_same (fun items : list RawReminder => items)
               (List.filter (whose_name_or_body P searchText)) [] []
               (reminder_lists w) msg) by done.
    by exists msg. }
  assert (Hgood : existsb is_unreadable (reminder_lists w) = false ->
            (exists listed, fst (getAllReminders P w) = Ok listed)
            /\ (exists found, fst (findReminders P searchText w) = Ok found)).
  { intros Hall. apply all_readable in Hall.
    rewrite getAllReminders_run, findReminders_run, Hacc, Hall.
    rewrite !for_lists_readable. split; [by eexists|].
    destruct (_ ++ _); by eexists. }
  split; [|split; [|done]].
  - split.
    + intros [listed Hl]. destruct (existsb _ _) eqn:Hex; [|done].
      destruct (Hbad eq_refl) as (msg & _ & Hthrow & _). congruence.
    + intros Hall. by apply Hgood.
  - split.
    + intros [found Hf]. destruct (existsb _ _) eqn:Hex; [|done].
      destruct (Hbad eq_refl) as (msg & _ & _ & Hthrow). congruence.
    + intros Hall. by apply Hgood.
Qed.

Lemma reminders_all_or_nothing_witness :
  reminders_access Demo.home = true
  /\ ((exists listed, fst (getAllReminders Demo.platform Demo.home) = Ok listed)
      <-> existsb is_unreadable (reminder_lists Demo.home) = false).
Proof.
  split; [reflexivity|].
  exact (proj1 (reminders_all_or_nothing Demo.platform "rent" Demo.home eq_refl)).
Defined.

(** ** Creating an event *)

Lemma timeClip_valid (z e : Z) :
  timeClip (inject_Z z) = ValidDate e -> e = z.
Proof.
  unfold timeClip. destruct (Qle_bool _ _); [|done]. intros [= <-].
  unfold Qtrunc, inject_Z. simpl. by rewrite Z.quot_1_r.
Qed.

Lemma Demo_whole_minutes_exact : whole_minutes_exact Demo.platform.
Proof.
  intros s n _. simpl. f_equal.
  unfold Qplus, Qmult, inject_Z. cbn [Qnum Qden Pos.mul].
  f_equal. lia.
Qed.

Lemma createEvent_run (P : Platform) title0 (s e : Z) duration description
    location w :
  calendar_access w = true ->
  end_of P (ValidDate s) duration = ValidDate e ->
  createEvent P title0 (ValidDate s) duration description location w
  = let w1 := logged [ProbeCalendar;
                      RunCreateEvent title0 s e description location] w in
    match calendars w !! default_calendar w with
    | None => (Throw ("Error creating calendar event: " +:+ no_default P), w1)
    | Some cal =>
        match cal_events cal with
        | Unreadable msg => (Throw ("Error creating calendar event: " +:+ msg), w1)
        | Readable evs =>
            let ev := new_event P (calendars w) cal title0 s e description location in
            (Ok (Some (to_event P ev)),
             set_calendars
               (<[default_calendar w :=
                    {| cal_name := cal_name cal;
                       cal_events := Readable (evs ++ [ev]) |}]> (calendars w)) w1)
        end
    end.
Proof.
  intros Hacc Hend. unfold createEvent, try_catch, bind.
  rewrite checkCalendarAccess_run, Hacc. simpl. simpl in Hend. rewrite Hend. simpl.
  unfold run_createEvent. simpl.
  destruct (calendars w !! default_calendar w) as [cal|]; [|done].
  by destruct (cal_events cal).
Qed.

Lemma enumerable_after_push (cals : list Calendar) d cal evs ev :
  cals !! d = Some cal ->
  cal_events cal = Readable evs ->
  exists pre post,
    concat (readable (map cal_events cals)) = pre ++ evs ++ post
    /\ concat (readable (map cal_events
                 (<[d := {| cal_name := cal_name cal;
                            cal_events := Readable (evs ++ [ev]) |}]> cals)))
       = pre ++ (evs ++ [ev]) ++ post.
Proof.
  revert d. induction cals as [|c cals IH]; intros [|d]; simpl; try done.
  - intros [= ->] ->. by exists [], (concat (readable (map cal_events cals))).
  - intros Hd Hev. destruct (IH d Hd Hev) as (pre & post & Heq & Heq').
    destruct (cal_events c) as [items|msg]; simpl.
    + exists (items ++ pre), post. rewrite Heq, Heq'. by rewrite <- !app_assoc.
    + by exists pre, post.
Qed.

(** X11. With calendar access granted, a valid start, an end (as the
    runtime computes [startDate.getTime() + duration * 60000]) that is a
    valid date, and a default calendar that can be read, [createEvent]
    appends one event to the end of the default calendar and returns it:
    title, description, location and start as given, the end as computed,
    the calendar name that of the default calendar; no other calendar
    changes.  Where the runtime's arithmetic is exact on whole minutes, a
    start inside the range of Date and a whole number of minutes [n] give
    the end [start + n * 60000] ms; [n] may be negative, and then the
    event ends before it starts. *)
Theorem createEvent_appends (P : Platform) (title0 : string) (s e : Z)
    (duration : Q) (description location : string) (cal : Calendar)
    (evs : list RawEvent) (w : World) :
  calendar_access w = true ->
  end_of P (ValidDate s) duration = ValidDate e ->
  calendars w !! default_calendar w = Some cal ->
  cal_events cal = Readable evs ->
  let ev := new_event P (calendars w) cal title0 s e description location in
  exists w1,
    createEvent P title0 (ValidDate s) duration description location w
    = (Ok (Some (to_event P ev)), w1)
    /\ calendars w1
       = <[default_calendar w :=
             {| cal_name := cal_name cal; cal_events := Readable (evs ++ [ev]) |}]>
           (calendars w)
    /\ (forall k, k <> default_calendar w -> calendars w1 !! k = calendars w !! k)
    /\ ev_title (to_event P ev) = title0
    /\ ev_description (to_event P ev) = description
    /\ ev_location (to_event P ev) = location
    /\ ev_startDate (to_event P ev) = date_toString P s
    /\ ev_endDate (to_event P ev) = date_toString P e
    /\ ev_calendarName (to_event P ev) = cal_name cal
    /\ (whole_minutes_exact P ->
        (Z.abs s <= 8640000000000000)%Z ->
        forall n, duration = inject_Z n -> e = (s + n * 60000)%Z).
Proof.
  intros Hacc Hend Hcal Hevs ev.
  pose proof (createEvent_run P title0 s e duration description location w
                Hacc Hend) as Hrun.
  simpl in Hrun. rewrite Hcal, Hevs in Hrun. fold ev in Hrun.
  eexists. split; [exact Hrun|]. split; [done|]. split.
  { intros k Hk. simpl. by rewrite list_lookup_insert_ne. }
  do 6 (split; [reflexivity|]).
  intros Hexact Hs n ->. simpl in Hend. rewrite (Hexact s n Hs) in Hend.
  by apply timeClip_valid.
Qed.

Lemma createEvent_appends_witness :
  calendar_access Demo.home = true
  /\ end_of Demo.platform (ValidDate 1000) (inject_Z (-1)) = ValidDate (-59000)
  /\ exists w1,
       createEvent Demo.platform "Lunch" (ValidDate 1000) (inject_Z (-1))
         "with Ana" "Cafe" Demo.home
       = (Ok (Some (to_event Demo.platform
                      (new_event Demo.platform (calendars Demo.home)
                         {| cal_name := "Work"; cal_events := Readable [Demo.standup] |}
                         "Lunch" 1000 (-59000) "with Ana" "Cafe"))), w1)
       /\ (-59000 = 1000 + -1 * 60000)%Z.
Proof.
  split; [reflexivity|]. split; [reflexivity|].
  destruct (createEvent_appends Demo.platform "Lunch" 1000 (-59000) (inject_Z (-1))
              "with Ana" "Cafe"
              {| cal_name := "Work"; cal_events := Readable [Demo.standup] |}
              [Demo.standup] Demo.home eq_refl eq_refl eq_refl eq_refl)
    as (w1 & Hrun & _ & _ & _ & _ & _ & _ & _ & _ & Hwhole).
  exists w1. split; [exact Hrun|].
  apply (Hwhole Demo_whole_minutes_exact); [simpl; lia|reflexivity].
Defined.

(** X12. After a successful [createEvent] (same conditions), a listing of
    the events returns the created event and exactly one event more than
    before, and a find without dates on any text contained in the title
    returns the created event. *)
Theorem createEvent_then_list_and_find (P : Platform) (title0 searchText : string)
    (s e : Z) (duration : Q) (description location : string) (cal : Calendar)
    (evs : list RawEvent) (w : World) :
  calendar_access w = true ->
  end_of P (ValidDate s) duration = ValidDate e ->
  calendars w !! default_calendar w = Some cal ->
  cal_events cal = Readable evs ->
  includes title0 searchText = true ->
  exists created w1 before listed found,
    createEvent P title0 (ValidDate s) duration description location w
    = (Ok (Some created), w1)
    /\ fst (getAllEvents P w) = Ok before
    /\ fst (getAllEvents P w1) = Ok listed
    /\ In created listed
    /\ length listed = S (length before)
    /\ fst (findEvents P searchText None None w1) = Ok found
    /\ In created found.
Proof.
  intros Hacc Hend Hcal Hevs Htext.
  set (ev := new_event P (calendars w) cal title0 s e description location).
  pose proof (createEvent_run P title0 s e duration description location w
                Hacc Hend) as Hrun.
  simpl in Hrun. rewrite Hcal, Hevs in Hrun. fold ev in Hrun.
  destruct (enumerable_after_push (calendars w) _ cal evs ev Hcal Hevs)
    as (pre & post & Hbefore & Hafter).
  match type of Hrun with _ = (_, ?w0) => set (w1 := w0) in * end.
  assert (Hacc1 : calendar_access w1 = true) by done.
  assert (Hin : In ev (enumerable_events w1)).
  { unfold enumerable_events. simpl. rewrite Hafter.
    apply in_or_app. right. apply in_or_app. left. apply in_or_app. right. by left. }
  assert (Hexact : In (to_event P ev) (strict_events P searchText None None w1)).
  { apply exact_match_in_strict; [done| |done].
    unfold text_filter. simpl. by rewrite Htext. }
  assert (Hfind : exists found,
            fst (findEvents P searchText None None w1) = Ok found
            /\ In (to_event P ev) found).
  { destruct (findEvents_cases P searchText None None w1 Hacc1)
      as [(Hempty & _)|[_ Hfound]].
    - rewrite Hempty in Hexact. destruct Hexact.
    - simpl in Hfound. rewrite Hfound. by eexists. }
  destruct Hfind as (found & Hfound & Hinf).
  exists (to_event P ev), w1, (map (to_event P) (enumerable_events w)),
         (map (to_event P) (enumerable_events w1)), found.
  split; [exact Hrun|].
  split; [by rewrite getAllEvents_run, Hacc|].
  split; [by rewrite getAllEvents_run, Hacc1|].
  split; [by apply in_map|].
  split; [|by split].
  rewrite !length_map. unfold enumerable_events at 1 2. simpl.
  rewrite Hafter, Hbefore. rewrite !length_app. simpl. lia.
Qed.

Lemma createEvent_then_list_and_find_witness :
  calendar_access Demo.home = true
  /\ includes "Lunch" "unc" = true
  /\ exists created w1 before listed found,
       createEvent Demo.platform "Lunch" (ValidDate 1000) (inject_Z 30)
         "with Ana" "Cafe" Demo.home
       = (Ok (Some created), w1)
       /\ fst (getAllEvents Demo.platform Demo.home) = Ok before
       /\ fst (getAllEvents Demo.platform w1) = Ok listed
       /\ In created listed
       /\ length listed = S (length before)
       /\ fst (findEvents Demo.platform "unc" None None w1) = Ok found
       /\ In created found.
Proof.
  split; [reflexivity|]. split; [reflexivity|].
  exact (createEvent_then_list_and_find Demo.platform "Lunch" "unc" 1000 1801000
           (inject_Z 30) "with Ana" "Cafe"
           {| cal_name := "Work"; cal_events := Readable [Demo.standup] |}
           [Demo.standup] Demo.home eq_refl eq_refl eq_refl eq_refl eq_refl).
Defined.

(** ** A create either appends one item or changes nothing *)

(** X13. Whatever its arguments and the world, [createReminder] either
    returns the created reminder, and then the default list has gained
    exactly that reminder, not completed, at its end and nothing else has
    changed in any list, or it rejects, and then every list is exactly as
    it was; it never returns [null].  The same holds for [createEvent]
    and the calendars. *)
Theorem create_appends_or_changes_nothing (P : Platform) (w : World) :
  (forall title0 notes0 due,
     let out := createReminder P title0 notes0 due w in
     match fst out with
     | Throw _ => reminder_lists (snd out) = reminder_lists w
     | Ok None => False
     | Ok (Some r) =>
         exists items raw,
           reminder_lists w !! default_list w = Some (Readable items)
           /\ r = to_reminder P raw
           /\ r_name raw = title0
           /\ r_completed raw = false
           /\ reminder_lists (snd out)
              = <[default_list w := Readable (items ++ [raw])]> (reminder_lists w)
     end)
  /\ (forall title0 startDate duration description location,
        let out := createEvent P title0 startDate duration description location w in
        match fst out with
        | Throw _ => calendars (snd out) = calendars w
        | Ok None => False
        | Ok (Some ev) =>
            exists cal evs raw,
              calendars w !! default_calendar w = Some cal
              /\ cal_events cal = Readable evs
              /\ ev = to_event P raw
              /\ e_summary raw = title0
              /\ calendars (snd out)
                 = <[default_calendar w :=
                       {| cal_name := cal_name cal;
                          cal_events := Readable (evs ++ [raw]) |}]> (calendars w)
        end).
Proof.
  split.
  - intros title0 notes0 due. simpl.
    unfold createReminder, try_catch, bind.
    rewrite checkRemindersAccess_run.
    destruct (reminders_access w); simpl; [|done].
    destruct due as [[ms|]|]; simpl; try done;
      unfold run_createReminder; simpl;
      (destruct (reminder_lists w !! default_list w) as [[items|msg]|]; simpl;
       [|done..]);
      eexists items, _; by repeat split.
  - intros title0 startDate duration description location. simpl.
    unfold createEvent, try_catch, bind.
    rewrite checkCalendarAccess_run.
    destruct (calendar_access w); simpl; [|done].
    destruct startDate as [s|]; simpl; [|done].
    destruct (date_after_minutes P s duration) as [e|]; simpl; [|done].
    unfold run_createEvent. simpl.
    destruct (calendars w !! default_calendar w) as [cal|]; simpl; [|done].
    destruct (cal_events cal) as [evs|msg] eqn:Hevs; simpl; [|done].
    eexists cal, evs, _. by repeat split.
Qed.

(** ** What the tools leave alone *)

Ltac frames_of_tools :=
  repeat first
    [ apply preserves_getAllReminders | apply preserves_findReminders
    | apply preserves_createReminder | apply preserves_completeReminder
    | apply preserves_getAllEvents | apply preserves_findEvents
    | apply preserves_createEvent
    | apply preserves_ret | apply preserves_throw
    | apply preserves_bind; [|intros ?]
    | apply preserves_if
    | match goal with
      | |- preserves _ (match ?x with _ => _ end) => destruct x
      end ].

Lemma preserves_case_reminders (P : Platform) (args : Args) kc :
  preserves (frame false kc) (case_reminders P args).
Proof. unfold case_reminders. frames_of_tools. Qed.

Lemma preserves_case_calendar (P : Platform) (args : Args) kr :
  preserves (frame kr false) (case_calendar P args).
Proof. unfold case_calendar. frames_of_tools. Qed.

Lemma preserves_reading_reminders (P : Platform) (args : Args) :
  op_in ["list"; "find"] (args !! "operation") = true ->
  preserves (frame true true) (case_reminders P args).
Proof.
  intros Hop. unfold case_reminders.
  destruct (args !! "operation") as [[| | |s|]|]; try done. simpl in Hop.
  destruct (String.eqb s "list") eqn:E1;
    [apply String.eqb_eq in E1 as ->|
     destruct (String.eqb s "find") eqn:E2;
     [apply String.eqb_eq in E2 as ->|done]];
    simpl; frames_of_tools.
Qed.

Lemma preserves_reading_calendar (P : Platform) (args : Args) :
  op_in ["list"; "find"] (args !! "operation") = true ->
  preserves (frame true true) (case_calendar P args).
Proof.
  intros Hop. unfold case_calendar.
  destruct (args !! "operation") as [[| | |s|]|]; try done. simpl in Hop.
  destruct (String.eqb s "list") eqn:E1;
    [apply String.eqb_eq in E1 as ->|
     destruct (String.eqb s "find") eqn:E2;
     [apply String.eqb_eq in E2 as ->|done]];
    simpl; frames_of_tools.
Qed.

(** X14. Whatever the arguments, a request to the reminders tool never
    changes a calendar and a request to the calendar tool never changes a
    reminder list; and a request whose operation is list or find, to
    either tool, changes neither, whether it is answered with a result or
    with an error. *)
Theorem tool_requests_frame (P : Platform) (d : Domain) (args : Args) (w : World) :
  let w' := snd (handler P {| name := tool_of d; arguments := Some args |} w) in
  (d = DReminders -> calendars w' = calendars w)
  /\ (d = DCalendar -> reminder_lists w' = reminder_lists w)
  /\ (op_in ["list"; "find"] (args !! "operation") = true ->
      reminder_lists w' = reminder_lists w /\ calendars w' = calendars w).
Proof.
  assert (Hwrap : forall kr kc (m : M CallToolResult),
            preserves (frame kr kc) m ->
            preserves (frame kr kc)
              (try_catch m (fun e => ret {| text := "Error: " +:+ e;
                                            isError := true |}))).
  { intros kr kc m Hm. apply preserves_try_catch; [done|].
    intros e. apply preserves_ret. }
  simpl. unfold handler, handler_body. simpl.
  destruct d; simpl; (split; [|split]); try done.
  - intros _. by apply (Hwrap false true _ (preserves_case_reminders P args true) w).
  - intros Hop.
    destruct (Hwrap true true _ (preserves_reading_reminders P args Hop) w)
      as (_ & _ & _ & _ & H5 & H6). split; [by apply H5|by apply H6].
  - intros _. by apply (Hwrap true false _ (preserves_case_calendar P args true) w).
  - intros Hop.
    destruct (Hwrap true true _ (preserves_reading_calendar P args Hop) w)
      as (_ & _ & _ & _ & H5 & H6). split; [by apply H5|by apply H6].
Qed.

(** ** The two lookup tools *)

(** X15. The contacts tool accepts its arguments exactly when [name] is
    absent or a string, the notes tool exactly when [searchText] is absent
    or a string (so null, a number or an object is rejected with the
    generic error).  An empty string passes the guard but is falsy, so the
    request is answered exactly as the request without the field: all
    contacts, or all notes, are listed instead of searched, whatever the
    utility modules do. *)
Theorem lookup_tools_empty_key (P : Platform) (args : Args) (w : World) :
  (isContactsArgs args = true
   <-> args !! "name" = None \/ exists s, args !! "name" = Some (JStr s))
  /\ (isNotesArgs args = true
      <-> args !! "searchText" = None
          \/ exists s, args !! "searchText" = Some (JStr s))
  /\ (args !! "name" = Some (JStr EmptyString) ->
      handler P {| name := "contacts"; arguments := Some args |} w
      = handler P {| name := "contacts"; arguments := Some ∅ |} w)
  /\ (args !! "searchText" = Some (JStr EmptyString) ->
      handler P {| name := "notes"; arguments := Some args |} w
      = handler P {| name := "notes"; arguments := Some ∅ |} w).
Proof.
  assert (Hguard : forall k,
            negb (has_key args k) || is_type "string" (args !! k) = true
            <-> args !! k = None \/ exists s, args !! k = Some (JStr s)).
  { intros k. unfold has_key, is_type.
    destruct (args !! k) as [[|b|q|s|]|]; simpl; split; try done; eauto;
      by intros [H|[s' H]]. }
  split; [apply Hguard|]. split; [apply Hguard|]. split.
  - intros Hname. unfold handler, handler_body. simpl.
    unfold case_contacts, isContactsArgs, has_key, is_type.
    by rewrite Hname, lookup_empty.
  - intros Htext. unfold handler, handler_body. simpl.
    unfold case_notes, isNotesArgs, has_key, is_type.
    by rewrite Htext, lookup_empty.
Qed.

(** ** Exact matches hide the broader ones *)


